(** * v3d-web: the landmark filtering worker (src/worker/pose-processing.ts)

    A shallow embedding of the classes [FilteredVectorLandmark] and [Poses]
    and the properties of the filtering pipeline.

    JavaScript numbers are kept behind the interface [Number], whose
    instance is IEEE-754 binary64 (primitive floats, what the program runs
    on).  Everything that does not depend on rounding is proved for every
    instance of the interface; what depends on the numbers is proved on
    binary64. *)

From Stdlib Require Import Floats Uint63 List ZArith Bool Lia.
Import ListNotations.

Set Implicit Arguments.

(* ================================================================= *)
(** ** Numbers *)

(** The operations of a JavaScript [number] the worker uses.  [neqb] is
    [===], [nltb] is [<], [nleb] is [<=]; [truthy] is ToBoolean, i.e. what
    [if (v)], [!v] and [v || d] test. *)
Class Number (F : Type) : Type := {
  fromZ : Z -> F;
  nadd : F -> F -> F;
  nsub : F -> F -> F;
  nmul : F -> F -> F;
  ndiv : F -> F -> F;
  nneg : F -> F;
  nsqrt : F -> F;
  npi : F;
  neqb : F -> F -> bool;
  nltb : F -> F -> bool;
  nleb : F -> F -> bool;
  truthy : F -> bool
}.

Declare Scope js_scope.
Delimit Scope js_scope with js.
Infix "+" := nadd : js_scope.
Infix "-" := nsub : js_scope.
Infix "*" := nmul : js_scope.
Infix "/" := ndiv : js_scope.
Notation "- a" := (nneg a) : js_scope.
Infix "===" := neqb (at level 70, no associativity) : js_scope.
Infix "<?" := nltb : js_scope.
Infix "<=?" := nleb : js_scope.
Notation "a >? b" := (nltb b a) (at level 70, no associativity) : js_scope.

(** IEEE-754 binary64: the numbers of the JavaScript engine. *)
Definition float_fromZ (n : Z) : float :=
  if (n <? 0)%Z then PrimFloat.opp (PrimFloat.of_uint63 (Uint63.of_Z (- n)))
  else PrimFloat.of_uint63 (Uint63.of_Z n).

(** ToBoolean of a number: false for +0, -0 and NaN. *)
Definition float_truthy (a : float) : bool :=
  negb (PrimFloat.eqb a 0%float) && PrimFloat.eqb a a.

#[global] Instance floatNumber : Number float := {
  fromZ := float_fromZ;
  nadd := PrimFloat.add;
  nsub := PrimFloat.sub;
  nmul := PrimFloat.mul;
  ndiv := PrimFloat.div;
  nneg := PrimFloat.opp;
  nsqrt := PrimFloat.sqrt;
  npi := 0x1.921fb54442d18p+1%float;
  neqb := PrimFloat.eqb;
  nltb := PrimFloat.ltb;
  nleb := PrimFloat.leb;
  truthy := float_truthy
}.

(** [v || d] on an optional number: [undefined], 0 and NaN give [d]. *)
Definition orElse {F} `{Number F} (v : option F) (d : F) : F :=
  match v with
  | Some a => if truthy a then a else d
  | None => d
  end.

(** The decimal literal [n/d] of the source, e.g. 0.6 as [ratio 6 10]: the
    quotient of two integers is rounded once, as the literal is. *)
Definition ratio {F} `{Number F} (n d : Z) : F := ndiv (fromZ n) (fromZ d).

(** [!v] on an optional number. *)
Definition falsy {F} `{Number F} (v : option F) : bool :=
  match v with
  | Some a => negb (truthy a)
  | None => true
  end.

(* ================================================================= *)
(** ** Vector3 (Babylon.js) and NormalizedLandmark (MediaPipe) *)

(** Babylon's Vector3; its methods return new vectors, and no vector the
    worker keeps is changed in place. *)
Record Vector3 (F : Type) : Type := mkVector3 { x : F; y : F; z : F }.

(** A detector landmark: a position and an optional confidence. *)
Record NormalizedLandmark (F : Type) : Type := mkLandmark {
  nl_x : F;
  nl_y : F;
  nl_z : F;
  nl_visibility : option F
}.

Definition NormalizedLandmarkList (F : Type) := list (NormalizedLandmark F).

Section Vectors.
Context {F : Type} {NF : Number F}.
Local Open Scope js_scope.

Definition Zero : Vector3 F := mkVector3 (fromZ 0) (fromZ 0) (fromZ 0).
Definition One : Vector3 F := mkVector3 (fromZ 1) (fromZ 1) (fromZ 1).

Definition vadd (a b : Vector3 F) : Vector3 F :=
  mkVector3 (x a + x b) (y a + y b) (z a + z b).

Definition subtract (a b : Vector3 F) : Vector3 F :=
  mkVector3 (x a - x b) (y a - y b) (z a - z b).

Definition scale (a : Vector3 F) (k : F) : Vector3 F :=
  mkVector3 (x a * k) (y a * k) (z a * k).

Definition cross (a b : Vector3 F) : Vector3 F :=
  mkVector3 (y a * z b - z a * y b)
            (z a * x b - x a * z b)
            (x a * y b - y a * x b).

(** [target.copyFrom(source)]: the coordinates of [target] become those of
    [source]. *)
Definition copyFrom (target source : Vector3 F) : Vector3 F :=
  mkVector3 (x source) (y source) (z source).

Definition length (a : Vector3 F) : F :=
  nsqrt (x a * x a + y a * y a + z a * z a).

(** Babylon's [normalizeFromLength]: a vector of length 0 or 1 is returned
    as it is, any other one is scaled by [1 / len]. *)
Definition normalizeFromLength (a : Vector3 F) (len : F) : Vector3 F :=
  if (len === fromZ 0) || (len === fromZ 1) then a
  else scale a (fromZ 1 / len).

Definition normalize (a : Vector3 F) : Vector3 F :=
  normalizeFromLength a (length a).

(** Modelled from the spec: [normalizedLandmarkToVector] of src/helper/utils.ts
    is missing; a landmark is a Vector3 plus an optional confidence (data
    model of the spec), so the conversion keeps the three coordinates. *)
Definition normalizedLandmarkToVector (l : NormalizedLandmark F) : Vector3 F :=
  mkVector3 (nl_x l) (nl_y l) (nl_z l).

(** Modelled from the spec: [vectorToNormalizedLandmark] of
    src/helper/utils.ts is missing; the converse conversion, to a landmark
    without confidence. *)
Definition vectorToNormalizedLandmark (v : Vector3 F) : NormalizedLandmark F :=
  mkLandmark (x v) (y v) (z v) None.
End Vectors.

(* ================================================================= *)
(** ** The two filters of src/helper/utils.ts *)

(** Modelled from the spec: the class OneEuroVectorFilter of
    src/helper/utils.ts is missing.  Its state is the five constructor
    arguments passed by [FilteredVectorLandmark] (previous timestamp, previous
    value, previous smoothed derivative, [min_cutoff], [beta]), the fixed
    derivative cutoff and the first-call flag of section 4.1. *)
Record OneEuroVectorFilter (F : Type) : Type := mkOneEuro {
  t_prev : F;
  x_prev : Vector3 F;
  dx_prev : Vector3 F;
  min_cutoff : F;
  beta : F;
  d_cutoff : F;
  started : bool
}.

(** Modelled from the spec: the class EuclideanHighPassFilter of
    src/helper/utils.ts is missing.  Its state is the threshold given to the
    constructor and the held reference point, read as [value]. *)
Record EuclideanHighPassFilter (F : Type) : Type := mkHighPass {
  threshold : F;
  value : Vector3 F
}.

(** The two methods of the filters that [updatePosition] calls.  Their code is
    not part of the sources, so the worker is modelled over any
    implementation of them. *)
Class HelperFilters (F : Type) : Type := {
  next : OneEuroVectorFilter F -> F -> Vector3 F ->
         OneEuroVectorFilter F * Vector3 F;
  update : EuclideanHighPassFilter F -> Vector3 F -> EuclideanHighPassFilter F
}.

Section SpecFilters.
Context {F : Type} {NF : Number F}.
Local Open Scope js_scope.

(** Modelled from the spec: the constructor of the missing class
    OneEuroVectorFilter, with a derivative cutoff of 1 and no call made yet. *)
Definition new_OneEuroVectorFilter
    (t0 : F) (x0 dx0 : Vector3 F) (cutoff b : F) : OneEuroVectorFilter F :=
  mkOneEuro t0 x0 dx0 cutoff b (fromZ 1) false.

(** Modelled from the spec: the constructor of the missing class
    EuclideanHighPassFilter; the reference point starts at the origin, where
    the position of a landmark starts. *)
Definition new_EuclideanHighPassFilter (th : F) : EuclideanHighPassFilter F :=
  mkHighPass th Zero.

(** Modelled from the spec: [alpha(cutoff) = 1 / (1 + tau/te)] with
    [tau = 1/(2 pi cutoff)]. *)
Definition alpha (te cutoff : F) : F :=
  let tau := fromZ 1 / (fromZ 2 * npi * cutoff) in
  fromZ 1 / (fromZ 1 + tau / te).

(** Modelled from the spec: exponential smoothing with factor [a]. *)
Definition lowpass (a : F) (v v_prev : Vector3 F) : Vector3 F :=
  vadd (scale v a) (scale v_prev (fromZ 1 - a)).

(** Modelled from the spec: AdaptiveLowPassFilter.next of section 4.1 (the
    class OneEuroVectorFilter of src/helper/utils.ts is missing).  A
    non-increasing timestamp returns the previous output, the first call
    returns the sample unfiltered, otherwise the sample is smoothed with a
    cutoff that grows with the smoothed speed. *)
Definition spec_next (f : OneEuroVectorFilter F) (t : F) (v : Vector3 F)
  : OneEuroVectorFilter F * Vector3 F :=
  let te := t - t_prev f in
  if te <=? fromZ 0 then (f, x_prev f)
  else if negb (started f) then
    (mkOneEuro t v (dx_prev f) (min_cutoff f) (beta f) (d_cutoff f) true, v)
  else
    let dx := scale (subtract v (x_prev f)) (fromZ 1 / te) in
    let edx := lowpass (alpha te (d_cutoff f)) dx (dx_prev f) in
    let cutoff := min_cutoff f + beta f * length edx in
    let x_hat := lowpass (alpha te cutoff) v (x_prev f) in
    (mkOneEuro t x_hat edx (min_cutoff f) (beta f) (d_cutoff f) true, x_hat).

(** Modelled from the spec: DeadZoneFilter of section 4.2 (the class
    EuclideanHighPassFilter of src/helper/utils.ts is missing): the held
    reference snaps to the sample when their distance exceeds the
    threshold. *)
Definition spec_update (h : EuclideanHighPassFilter F) (v : Vector3 F)
  : EuclideanHighPassFilter F :=
  if length (subtract (value h) v) >? threshold h
  then mkHighPass (threshold h) v
  else h.

(** The two filters as the spec describes them. *)
Definition specFilters : HelperFilters F :=
  {| next := spec_next; update := spec_update |}.
End SpecFilters.

(* ================================================================= *)
(** ** FilteredVectorLandmark *)

Inductive LandmarkTimeIncrementMode : Type :=
  | Universal
  | RealTime.

Record FilteredVectorLandmark (F : Type) : Type := mkFiltered {
  oneEuroVectorFilter : OneEuroVectorFilter F;
  highPassFilter : EuclideanHighPassFilter F;
  _tIncrementMode : LandmarkTimeIncrementMode;
  _t : F;
  _pos : Vector3 F;
  visibility : option F
}.

Definition FilteredVectorLandmarkList (F : Type) := list (FilteredVectorLandmark F).

Section Landmark.
Context {F : Type} {NF : Number F} {HF : HelperFilters F}.
Local Open Scope js_scope.

Definition VISIBILITY_THRESHOLD : F := ratio 6 10.

(** [new FilteredVectorLandmark(oneEuroCutoff, oneEuroBeta, highPassThreshold)] *)
Definition new_FilteredVectorLandmark (oneEuroCutoff oneEuroBeta highPassThreshold : F)
  : FilteredVectorLandmark F :=
  mkFiltered
    (new_OneEuroVectorFilter (fromZ 0) Zero Zero oneEuroCutoff oneEuroBeta)
    (new_EuclideanHighPassFilter highPassThreshold)
    Universal (fromZ 0) Zero (Some (fromZ 0)).

Definition set_t (l : FilteredVectorLandmark F) (v : F) : FilteredVectorLandmark F :=
  mkFiltered (oneEuroVectorFilter l) (highPassFilter l) (_tIncrementMode l)
             v (_pos l) (visibility l).

(** The first statement of [updatePosition]: the time increment. *)
Definition advance (l : FilteredVectorLandmark F) (dt : F) : FilteredVectorLandmark F :=
  match _tIncrementMode l with
  | Universal => set_t l (_t l + fromZ 1)
  | RealTime => set_t l (_t l + dt)
  end.

(** The condition of the confidence gate,
    [!visibility || visibility > Poses.VISIBILITY_THRESHOLD]. *)
Definition accepted (vis : option F) : bool :=
  falsy vis ||
  match vis with
  | Some v => v >? VISIBILITY_THRESHOLD
  | None => false
  end.

Definition updatePosition (l : FilteredVectorLandmark F) (dt : F)
    (pos : Vector3 F) (vis : option F) : FilteredVectorLandmark F :=
  let l1 := advance l dt in
  if accepted vis then
    let (f', p) := next (oneEuroVectorFilter l1) (_t l1) pos in
    let h' := update (highPassFilter l1) p in
    mkFiltered f' h' (_tIncrementMode l1) (_t l1) (value h') vis
  else l1.

Definition set_min_cutoff (f : OneEuroVectorFilter F) (v : F) : OneEuroVectorFilter F :=
  mkOneEuro (t_prev f) (x_prev f) (dx_prev f) v (beta f) (d_cutoff f) (started f).

Definition set_beta (f : OneEuroVectorFilter F) (v : F) : OneEuroVectorFilter F :=
  mkOneEuro (t_prev f) (x_prev f) (dx_prev f) (min_cutoff f) v (d_cutoff f) (started f).

Definition set_filter (l : FilteredVectorLandmark F) (f : OneEuroVectorFilter F)
  : FilteredVectorLandmark F :=
  mkFiltered f (highPassFilter l) (_tIncrementMode l) (_t l) (_pos l) (visibility l).

(** [if (min_cutoff) ...; if (beta) ...]; the third argument is unused. *)
Definition updateFilterParameters (l : FilteredVectorLandmark F)
    (min_cutoff' beta' d_cutoff' : option F) : FilteredVectorLandmark F :=
  let f1 := match min_cutoff' with
            | Some c => if truthy c then set_min_cutoff (oneEuroVectorFilter l) c
                        else oneEuroVectorFilter l
            | None => oneEuroVectorFilter l
            end in
  let f2 := match beta' with
            | Some b => if truthy b then set_beta f1 b else f1
            | None => f1
            end in
  set_filter l f2.
End Landmark.

(* ================================================================= *)
(** ** Poses *)

(** The constants of @mediapipe/holistic and of src/helper/utils.ts that the
    worker reads: the two list lengths, the pose indices and the face-mesh
    connection tables.  They are outside the sources, so the worker is
    modelled over any values of them. *)
Class Holistic : Type := {
  POSE_LANDMARK_LENGTH : nat;
  FACE_LANDMARK_LENGTH : nat;
  LEFT_EYE_INNER : nat;
  RIGHT_EYE_INNER : nat;
  LEFT_RIGHT : nat;
  RIGHT_LEFT : nat;
  LEFT_HIP : nat;
  RIGHT_HIP : nat;
  FACEMESH_LEFT_EYEBROW : list (nat * nat);
  FACEMESH_RIGHT_EYEBROW : list (nat * nat);
  FACEMESH_LEFT_EYE : list (nat * nat);
  FACEMESH_RIGHT_EYE : list (nat * nat);
  FACEMESH_LEFT_IRIS : list (nat * nat);
  FACEMESH_RIGHT_IRIS : list (nat * nat);
  FACEMESH_LIPS : list (nat * nat)
}.

(** The fields of the detector result the worker looks at. *)
Record Results (F : Type) : Type := mkResults {
  ea : option (NormalizedLandmarkList F);
  r_poseLandmarks : option (NormalizedLandmarkList F);
  r_faceLandmarks : option (NormalizedLandmarkList F)
}.

(** What [console.warn] prints. *)
Inductive ConsoleLine : Type :=
  | PoseLandmarkLengthWarning (expected : nat).

Record Poses (F : Type) : Type := mkPoses {
  cloneableInputResults : option (Results F);
  inputPoseLandmarks : NormalizedLandmarkList F;
  poseLandmarks : FilteredVectorLandmarkList F;
  inputFaceLandmarks : NormalizedLandmarkList F;
  faceLandmarks : FilteredVectorLandmarkList F;
  cloneablePoseLandmarks : NormalizedLandmarkList F;
  _faceNormals : NormalizedLandmarkList F;
  _faceMeshLandmarkIndexList : list (list nat);
  _faceMeshLandmarkList : list (NormalizedLandmarkList F);
  midHipBase : Vector3 F;
  firstResult : bool;
  console : list ConsoleLine
}.

(** How a call ends: normally, or with the TypeError JavaScript raises on a
    property access on [undefined]. *)
Inductive completion (A : Type) : Type :=
  | Normal (a : A)
  | TypeError.
Arguments TypeError {A}.

(** Methods of [Poses]: the object is threaded through, an exception keeps
    the mutations made before it. *)
Definition M (F A : Type) : Type := Poses F -> Poses F * completion A.

Definition ret {F A} (a : A) : M F A := fun p => (p, Normal a).
Definition bind {F A B} (m : M F A) (k : A -> M F B) : M F B :=
  fun p => match m p with
           | (p', Normal a) => k a p'
           | (p', TypeError) => (p', TypeError)
           end.
Definition modify {F} (f : Poses F -> Poses F) : M F unit := fun p => (f p, Normal tt).
Definition lift {F A} (c : completion A) : M F A := fun p => (p, c).

Declare Scope method_scope.
Delimit Scope method_scope with method.
Notation "v <- m ;; k" := (bind m (fun v => k))
  (at level 61, m at next level, right associativity) : method_scope.
Notation "m ;; k" := (bind m (fun _ => k))
  (at level 61, right associativity) : method_scope.

Section PosesFields.
Context {F : Type}.
Implicit Type p : Poses F.

Definition set_cloneableInputResults p v : Poses F :=
  mkPoses v (inputPoseLandmarks p) (poseLandmarks p) (inputFaceLandmarks p)
    (faceLandmarks p) (cloneablePoseLandmarks p) (_faceNormals p)
    (_faceMeshLandmarkIndexList p) (_faceMeshLandmarkList p) (midHipBase p)
    (firstResult p) (console p).
Definition set_inputPoseLandmarks p v : Poses F :=
  mkPoses (cloneableInputResults p) v (poseLandmarks p) (inputFaceLandmarks p)
    (faceLandmarks p) (cloneablePoseLandmarks p) (_faceNormals p)
    (_faceMeshLandmarkIndexList p) (_faceMeshLandmarkList p) (midHipBase p)
    (firstResult p) (console p).
Definition set_poseLandmarks p v : Poses F :=
  mkPoses (cloneableInputResults p) (inputPoseLandmarks p) v (inputFaceLandmarks p)
    (faceLandmarks p) (cloneablePoseLandmarks p) (_faceNormals p)
    (_faceMeshLandmarkIndexList p) (_faceMeshLandmarkList p) (midHipBase p)
    (firstResult p) (console p).
Definition set_inputFaceLandmarks p v : Poses F :=
  mkPoses (cloneableInputResults p) (inputPoseLandmarks p) (poseLandmarks p) v
    (faceLandmarks p) (cloneablePoseLandmarks p) (_faceNormals p)
    (_faceMeshLandmarkIndexList p) (_faceMeshLandmarkList p) (midHipBase p)
    (firstResult p) (console p).
Definition set_faceLandmarks p v : Poses F :=
  mkPoses (cloneableInputResults p) (inputPoseLandmarks p) (poseLandmarks p)
    (inputFaceLandmarks p) v (cloneablePoseLandmarks p) (_faceNormals p)
    (_faceMeshLandmarkIndexList p) (_faceMeshLandmarkList p) (midHipBase p)
    (firstResult p) (console p).
Definition set_cloneablePoseLandmarks p v : Poses F :=
  mkPoses (cloneableInputResults p) (inputPoseLandmarks p) (poseLandmarks p)
    (inputFaceLandmarks p) (faceLandmarks p) v (_faceNormals p)
    (_faceMeshLandmarkIndexList p) (_faceMeshLandmarkList p) (midHipBase p)
    (firstResult p) (console p).
Definition set_faceNormals p v : Poses F :=
  mkPoses (cloneableInputResults p) (inputPoseLandmarks p) (poseLandmarks p)
    (inputFaceLandmarks p) (faceLandmarks p) (cloneablePoseLandmarks p) v
    (_faceMeshLandmarkIndexList p) (_faceMeshLandmarkList p) (midHipBase p)
    (firstResult p) (console p).
Definition set_faceMeshLandmarkIndexList p v : Poses F :=
  mkPoses (cloneableInputResults p) (inputPoseLandmarks p) (poseLandmarks p)
    (inputFaceLandmarks p) (faceLandmarks p) (cloneablePoseLandmarks p)
    (_faceNormals p) v (_faceMeshLandmarkList p) (midHipBase p)
    (firstResult p) (console p).
Definition set_faceMeshLandmarkList p v : Poses F :=
  mkPoses (cloneableInputResults p) (inputPoseLandmarks p) (poseLandmarks p)
    (inputFaceLandmarks p) (faceLandmarks p) (cloneablePoseLandmarks p)
    (_faceNormals p) (_faceMeshLandmarkIndexList p) v (midHipBase p)
    (firstResult p) (console p).
Definition set_midHipBase p v : Poses F :=
  mkPoses (cloneableInputResults p) (inputPoseLandmarks p) (poseLandmarks p)
    (inputFaceLandmarks p) (faceLandmarks p) (cloneablePoseLandmarks p)
    (_faceNormals p) (_faceMeshLandmarkIndexList p) (_faceMeshLandmarkList p) v
    (firstResult p) (console p).
Definition set_firstResult p v : Poses F :=
  mkPoses (cloneableInputResults p) (inputPoseLandmarks p) (poseLandmarks p)
    (inputFaceLandmarks p) (faceLandmarks p) (cloneablePoseLandmarks p)
    (_faceNormals p) (_faceMeshLandmarkIndexList p) (_faceMeshLandmarkList p)
    (midHipBase p) v (console p).
Definition warn p (line : ConsoleLine) : Poses F :=
  mkPoses (cloneableInputResults p) (inputPoseLandmarks p) (poseLandmarks p)
    (inputFaceLandmarks p) (faceLandmarks p) (cloneablePoseLandmarks p)
    (_faceNormals p) (_faceMeshLandmarkIndexList p) (_faceMeshLandmarkList p)
    (midHipBase p) (firstResult p) (console p ++ [line]).

(** The landmark objects of the input are mutated in place, and the input
    stays reachable as [cloneableInputResults]: its two lists are written
    back here. *)
Definition set_ea p (l : NormalizedLandmarkList F) : Poses F :=
  match cloneableInputResults p with
  | Some r => set_cloneableInputResults p
                (Some (mkResults (Some l) (r_poseLandmarks r) (r_faceLandmarks r)))
  | None => p
  end.
Definition set_r_faceLandmarks p (l : NormalizedLandmarkList F) : Poses F :=
  match cloneableInputResults p with
  | Some r => set_cloneableInputResults p
                (Some (mkResults (ea r) (r_poseLandmarks r) (Some l)))
  | None => p
  end.

(** The landmark lists of the results the object holds. *)
Definition givenEa (p : Poses F) : option (NormalizedLandmarkList F) :=
  match cloneableInputResults p with Some r => ea r | None => None end.
Definition givenPose (p : Poses F) : option (NormalizedLandmarkList F) :=
  match cloneableInputResults p with Some r => r_poseLandmarks r | None => None end.
Definition givenFace (p : Poses F) : option (NormalizedLandmarkList F) :=
  match cloneableInputResults p with Some r => r_faceLandmarks r | None => None end.
End PosesFields.

Section PosesMethods.
Context {F : Type} {NF : Number F} {HF : HelperFilters F} {HOL : Holistic}.
Local Open Scope js_scope.
Local Open Scope method_scope.

(** [initArray(length, initializer)] *)
Definition initArray {A} (n : nat) (init : A) : list A := repeat init n.

(** [new Poses()] *)
Definition new_Poses : Poses F :=
  let origin := mkLandmark (fromZ 0) (fromZ 0) (fromZ 0) None in
  mkPoses None
    (initArray POSE_LANDMARK_LENGTH origin)
    (initArray POSE_LANDMARK_LENGTH
       (new_FilteredVectorLandmark
          (ratio 1 100) (fromZ 2) (ratio 7 1000)))
    (initArray FACE_LANDMARK_LENGTH origin)
    (initArray FACE_LANDMARK_LENGTH
       (new_FilteredVectorLandmark
          (ratio 2 100) (fromZ 10) (ratio 3 1000)))
    (initArray POSE_LANDMARK_LENGTH origin)
    [] [] [] Zero true [].

(** *** preProcessLandmarks *)

(** The body of the [map] callback: the landmark object is rewritten in
    place, its confidence is kept. *)
Definition transform (offset : Vector3 F) (v : NormalizedLandmark F)
  : NormalizedLandmark F :=
  mkLandmark (nl_x v + x offset) (- nl_y v + y offset) (nl_z v + z offset)
             (nl_visibility v).

(** The object at index [i] of an array is replaced by its state after a
    method call on it; nothing is written outside the array. *)
Fixpoint setNth {A : Type} (i : nat) (v : A) (l : list A) : list A :=
  match l, i with
  | [], _ => []
  | _ :: t, O => v :: t
  | h :: t, S j => h :: setNth j v t
  end.

(** The noise-filtering loop, [for (i = 0; i < resultsLandmarks.length; ++i)],
    with [n] iterations left: [filteredLandmarks[i]] is [undefined] past the
    end of the filtered list, and the call of [updatePosition] on it raises,
    after the earlier landmarks were updated. *)
Fixpoint filteringLoop (n i : nat) (dt : F) (resultsLandmarks : NormalizedLandmarkList F)
    (filteredLandmarks : FilteredVectorLandmarkList F)
  : FilteredVectorLandmarkList F * completion unit :=
  match n with
  | O => (filteredLandmarks, Normal tt)
  | S n' =>
    match nth_error resultsLandmarks i with
    | None => (filteredLandmarks, Normal tt)
    | Some r =>
      match nth_error filteredLandmarks i with
      | None => (filteredLandmarks, TypeError)
      | Some f =>
        filteringLoop n' (S i) dt resultsLandmarks
          (setNth i (updatePosition f dt (normalizedLandmarkToVector r) (nl_visibility r))
                  filteredLandmarks)
      end
    end
  end.

(** The same loop by recursion on the two lists: position [i] of the input is
    paired with position [i] of the filtered list (lemma
    [filteringLoop_noiseFiltering]). *)
Fixpoint noiseFiltering (dt : F) (resultsLandmarks : NormalizedLandmarkList F)
    (filteredLandmarks : FilteredVectorLandmarkList F)
  : FilteredVectorLandmarkList F * completion unit :=
  match resultsLandmarks with
  | [] => (filteredLandmarks, Normal tt)
  | r :: rs =>
    match filteredLandmarks with
    | [] => ([], TypeError)
    | f :: fs =>
      let f' := updatePosition f dt (normalizedLandmarkToVector r) (nl_visibility r) in
      let (fs', c) := noiseFiltering dt rs fs in
      (f' :: fs', c)
    end
  end.

(** The result is the input list after its in-place rewrite, the filtered
    list after the loop, and how the loop ended. *)
Definition preProcessLandmarks (resultsLandmarks : NormalizedLandmarkList F)
    (filteredLandmarks : FilteredVectorLandmarkList F) (dt : F) (offset : Vector3 F)
  : NormalizedLandmarkList F * FilteredVectorLandmarkList F * completion unit :=
  let resultsLandmarks' := map (transform offset) resultsLandmarks in
  let (filteredLandmarks', c) :=
    filteringLoop (List.length resultsLandmarks') 0 dt resultsLandmarks' filteredLandmarks in
  (resultsLandmarks', filteredLandmarks', c).

(** *** preProcessResults *)

(** [inputPoseLandmarks[i]] followed by a property access: the access
    raises when the list has no entry [i]. *)
Definition entry (l : NormalizedLandmarkList F) (i : nat)
  : completion (NormalizedLandmark F) :=
  match nth_error l i with
  | Some h => Normal h
  | None => TypeError
  end.

(** [(h.visibility || 0) > Poses.VISIBILITY_THRESHOLD] *)
Definition visible (h : NormalizedLandmark F) : bool :=
  orElse (nl_visibility h) (fromZ 0) >? VISIBILITY_THRESHOLD.

Definition hipMidpoint (lh rh : NormalizedLandmark F) : Vector3 F :=
  scale (vadd (normalizedLandmarkToVector lh) (normalizedLandmarkToVector rh))
        (ratio 1 2).

(** "Remember initial offset": the condition is evaluated left to right and
    stops at the first false operand. *)
Definition rememberInitialOffset (l : NormalizedLandmarkList F) : M F unit :=
  fun p =>
    if firstResult p then
      (lh <- lift (entry l LEFT_HIP) ;;
       if visible lh then
         rh <- lift (entry l RIGHT_HIP) ;;
         if visible rh then
           modify (fun q => set_firstResult (set_midHipBase q (hipMidpoint lh rh)) false)
         else ret tt
       else ret tt) p
    else (p, Normal tt).

(** The length test of the pose list: a warning and nothing else. *)
Definition checkLength (l : NormalizedLandmarkList F) (p : Poses F) : Poses F :=
  if Nat.eqb (List.length l) POSE_LANDMARK_LENGTH then p
  else warn p (PoseLandmarkLengthWarning POSE_LANDMARK_LENGTH).

(** [this.inputPoseLandmarks = this.preProcessLandmarks(inputPoseLandmarks,
    this.poseLandmarks, dt, new Vector3(0, this.midHipBase.y, 0))]: the
    assignment is not reached when the call raises. *)
Definition filterPoseLandmarks (dt : F) (l : NormalizedLandmarkList F) : M F unit :=
  fun p =>
    let '(l', fs', c) :=
      preProcessLandmarks l (poseLandmarks p) dt
        (mkVector3 (fromZ 0) (y (midHipBase p)) (fromZ 0)) in
    let p1 := set_poseLandmarks (set_ea p l') fs' in
    match c with
    | Normal _ => (set_inputPoseLandmarks p1 l', Normal tt)
    | TypeError => (p1, TypeError)
    end.

Definition preProcessPose (dt : F) (l : NormalizedLandmarkList F) : M F unit :=
  modify (checkLength l) ;;
  rememberInitialOffset l ;;
  filterPoseLandmarks dt l.

Definition preProcessFace (dt : F) (l : NormalizedLandmarkList F) : M F unit :=
  fun p =>
    let '(l', fs', c) := preProcessLandmarks l (faceLandmarks p) dt Zero in
    let p1 := set_faceLandmarks (set_r_faceLandmarks p l') fs' in
    match c with
    | Normal _ => (set_inputFaceLandmarks p1 l', Normal tt)
    | TypeError => (p1, TypeError)
    end.

(** The first block of [preProcessResults]: the pose list is read from the
    field [ea] of the results. *)
Definition preProcessPoseIfGiven (dt : F) : M F unit :=
  fun p =>
    match cloneableInputResults p with
    | None => (p, TypeError)
    | Some r =>
      match ea r with
      | Some l => preProcessPose dt l p
      | None => (p, Normal tt)
      end
    end.

(** The second block: the face list is read from [faceLandmarks]. *)
Definition preProcessFaceIfGiven (dt : F) : M F unit :=
  fun p =>
    match cloneableInputResults p with
    | Some r =>
      match r_faceLandmarks r with
      | Some l => preProcessFace dt l p
      | None => (p, Normal tt)
      end
    | None => (p, Normal tt)
    end.

Definition preProcessResults (dt : F) : M F unit :=
  preProcessPoseIfGiven dt ;; preProcessFaceIfGiven dt.

(** *** calcFaceNormal *)

Definition FilteredVectorLandmark3 : Type :=
  option (FilteredVectorLandmark F) * option (FilteredVectorLandmark F)
  * option (FilteredVectorLandmark F).

(** An array element that may be [undefined]; reading [.pos] of it raises. *)
Definition pos (v : option (FilteredVectorLandmark F)) : completion (Vector3 F) :=
  match v with
  | Some l => Normal (_pos l)
  | None => TypeError
  end.

Definition normalFromVertices (vertices : FilteredVectorLandmark3) (reverse : bool)
  : completion (Vector3 F) :=
  let '(v0, v1, v2) :=
    if reverse then let '(a, b, c) := vertices in (c, b, a) else vertices in
  match pos v1, pos v0 with
  | Normal p1, Normal p0 =>
    match pos v2 with
    | Normal p2 => Normal (normalize (cross (subtract p1 p0) (subtract p2 p1)))
    | TypeError => TypeError
    end
  | _, _ => TypeError
  end.

(** [vertices.reduce((prev, curr) => prev.add(normalFromVertices(curr)), prev)] *)
Fixpoint sumNormals (vertices : list FilteredVectorLandmark3) (prev : Vector3 F)
  : completion (Vector3 F) :=
  match vertices with
  | [] => Normal prev
  | curr :: rest =>
    match normalFromVertices curr false with
    | Normal n => sumNormals rest (vadd prev n)
    | TypeError => TypeError
    end
  end.

(** The four triangles. *)
Definition faceVertices (left_eye_inner right_eye_inner mouth_left mouth_right
    : option (FilteredVectorLandmark F)) : list FilteredVectorLandmark3 :=
  [ (left_eye_inner, mouth_left, right_eye_inner);
    (right_eye_inner, left_eye_inner, mouth_right);
    (mouth_left, mouth_right, right_eye_inner);
    (mouth_left, mouth_right, left_eye_inner) ].

(** [Array.from(idx)] of the [Set] filled with both ends of every
    connection: the distinct indices in the order of their first insertion. *)
Definition setAdd (idx : list nat) (v : nat) : list nat :=
  if existsb (Nat.eqb v) idx then idx else idx ++ [v].

Definition idxArrOf (connections : list (nat * nat)) : list nat :=
  fold_left (fun idx v => setAdd (setAdd idx (fst v)) (snd v)) connections [].

Definition faceMeshConnections : list (list (nat * nat)) :=
  [ FACEMESH_LEFT_EYEBROW; FACEMESH_RIGHT_EYEBROW;
    FACEMESH_LEFT_EYE; FACEMESH_RIGHT_EYE;
    FACEMESH_LEFT_IRIS; FACEMESH_RIGHT_IRIS;
    FACEMESH_LIPS ].

(** The point pushed for one index of a sub-region. *)
Definition meshPoint (l : FilteredVectorLandmark F) : NormalizedLandmark F :=
  mkLandmark (x (_pos l)) (y (_pos l)) (x (_pos l)) (visibility l).

(** The inner loop over [idxArr]. *)
Fixpoint meshPoints (fl : FilteredVectorLandmarkList F) (idxArr : list nat)
  : completion (NormalizedLandmarkList F) :=
  match idxArr with
  | [] => Normal []
  | i :: rest =>
    match nth_error fl i with
    | None => TypeError
    | Some l =>
      match meshPoints fl rest with
      | Normal arr => Normal (meshPoint l :: arr)
      | TypeError => TypeError
      end
    end
  end.

(** The outer loop over the connection tables: the index array is pushed
    before the points are read, the point array after. *)
Fixpoint unpackFaceMesh (connections : list (list (nat * nat))) : M F unit :=
  match connections with
  | [] => ret tt
  | c :: rest =>
    let idxArr := idxArrOf c in
    modify (fun p => set_faceMeshLandmarkIndexList p
                       (_faceMeshLandmarkIndexList p ++ [idxArr])) ;;
    arr <- (fun p => lift (meshPoints (faceLandmarks p) idxArr) p) ;;
    modify (fun p => set_faceMeshLandmarkList p (_faceMeshLandmarkList p ++ [arr])) ;;
    unpackFaceMesh rest
  end.

(** [this.faceLandmarks[this.faceMeshLandmarkIndexList[g][j]]]: a missing
    group raises, a missing index or landmark gives [undefined]. *)
Definition meshLandmark (g j : nat) : M F (option (FilteredVectorLandmark F)) :=
  fun p =>
    match nth_error (_faceMeshLandmarkIndexList p) g with
    | None => (p, TypeError)
    | Some idxArr =>
      (p, Normal (match nth_error idxArr j with
                  | Some i => nth_error (faceLandmarks p) i
                  | None => None
                  end))
    end.

(** The key points of the four triangles; [None] when neither landmark set
    is in the results and the method returns at once.  The nose and the two
    outer eye corners are read as well and never used. *)
Definition keyPoints
  : M F (option (option (FilteredVectorLandmark F) * option (FilteredVectorLandmark F)
                 * option (FilteredVectorLandmark F) * option (FilteredVectorLandmark F))) :=
  fun p =>
    let faceGiven := match cloneableInputResults p with
                     | Some r => match r_faceLandmarks r with Some _ => true | None => false end
                     | None => false
                     end in
    let poseGiven := match cloneableInputResults p with
                     | Some r => match r_poseLandmarks r with Some _ => true | None => false end
                     | None => false
                     end in
    if negb faceGiven then
      if negb poseGiven then (p, Normal None)
      else
        (p, Normal (Some (nth_error (poseLandmarks p) LEFT_EYE_INNER,
                          nth_error (poseLandmarks p) RIGHT_EYE_INNER,
                          nth_error (poseLandmarks p) LEFT_RIGHT,
                          nth_error (poseLandmarks p) RIGHT_LEFT)))
    else
      (modify (fun q => set_faceMeshLandmarkList
                          (set_faceMeshLandmarkIndexList q []) []) ;;
       unpackFaceMesh faceMeshConnections ;;
       left_eye_inner <- meshLandmark 2 8 ;;
       right_eye_inner <- meshLandmark 3 8 ;;
       mouth_left <- meshLandmark 6 10 ;;
       mouth_right <- meshLandmark 6 0 ;;
       ret (Some (left_eye_inner, right_eye_inner, mouth_left, mouth_right))) p.

(** "Calculate normals": the list of normals is emptied, the four triangle
    normals are summed, and the normalized sum is copied to [normal] (created
    as [Vector3.One()]) and pushed. *)
Definition calculateNormals
    (k : option (FilteredVectorLandmark F) * option (FilteredVectorLandmark F)
         * option (FilteredVectorLandmark F) * option (FilteredVectorLandmark F))
  : M F unit :=
  let '(left_eye_inner, right_eye_inner, mouth_left, mouth_right) := k in
  modify (fun p => set_faceNormals p []) ;;
  s <- lift (sumNormals
               (faceVertices left_eye_inner right_eye_inner mouth_left mouth_right)
               Zero) ;;
  let normal := copyFrom One (normalize s) in
  modify (fun p => set_faceNormals p
                     (_faceNormals p ++ [vectorToNormalizedLandmark normal])).

Definition calcFaceNormal : M F unit :=
  k <- keyPoints ;;
  match k with
  | None => ret tt
  | Some points => calculateNormals points
  end.

(** *** postPoseLandmarks *)

Fixpoint copyPoseLandmarks (cloneable : NormalizedLandmarkList F)
    (filtered : FilteredVectorLandmarkList F)
  : NormalizedLandmarkList F * completion unit :=
  match cloneable with
  | [] => ([], Normal tt)
  | v :: vs =>
    match filtered with
    | [] => (v :: vs, TypeError)
    | l :: ls =>
      let (vs', c) := copyPoseLandmarks vs ls in
      (mkLandmark (x (_pos l)) (y (_pos l)) (z (_pos l)) (visibility l) :: vs', c)
    end
  end.

Definition postPoseLandmarks : M F unit :=
  fun p =>
    let (cs, c) := copyPoseLandmarks (cloneablePoseLandmarks p) (poseLandmarks p) in
    (set_cloneablePoseLandmarks p cs, c).

(** *** process *)

Definition process (results : option (Results F)) (dt : F) : M F unit :=
  fun p =>
    let p := set_cloneableInputResults p results in
    match results with
    | None => (p, Normal tt)
    | Some _ => (preProcessResults dt ;; calcFaceNormal ;; postPoseLandmarks) p
    end.

(** A session: one [process] call per frame, on the same object; a frame
    that raised leaves the object as it was when the exception left. *)
Fixpoint session (p : Poses F) (frames : list (option (Results F) * F)) : Poses F :=
  match frames with
  | [] => p
  | (results, dt) :: rest => session (fst (process results dt p)) rest
  end.
End PosesMethods.

(* ================================================================= *)
(** ** The landmark lists of the page *)

(** [removeElements(landmarks, elements)] of the drawing code of the page:
    [delete landmarks[element]] for every listed index.  An array whose
    elements may have been deleted is a list of optional values: a deleted
    slot is a hole ([None]), the length of the array stays, and deleting past
    the end does nothing. *)
Definition removeElements {A : Type} (landmarks : list (option A)) (elements : list nat)
  : list (option A) :=
  fold_left (fun l element => setNth element None l) elements landmarks.

(* ================================================================= *)
(** ** The program as it runs: binary64 numbers, MediaPipe's constants *)

(** The filters of the spec on binary64 numbers, for the frames that are
    evaluated below. *)
#[global] Instance floatFilters : HelperFilters float := specFilters.

(** The constants of @mediapipe/holistic (pose indices, face-mesh connection
    tables) and the two list lengths of src/helper/utils.ts. *)
#[global] Instance mediapipe : Holistic := {
  POSE_LANDMARK_LENGTH := 33;
  FACE_LANDMARK_LENGTH := 478;
  LEFT_EYE_INNER := 1;
  RIGHT_EYE_INNER := 4;
  LEFT_RIGHT := 9;
  RIGHT_LEFT := 10;
  LEFT_HIP := 23;
  RIGHT_HIP := 24;
  FACEMESH_LEFT_EYEBROW :=
    [(276, 283); (283, 282); (282, 295); (295, 285);
     (300, 293); (293, 334); (334, 296); (296, 336)];
  FACEMESH_RIGHT_EYEBROW :=
    [(46, 53); (53, 52); (52, 65); (65, 55);
     (70, 63); (63, 105); (105, 66); (66, 107)];
  FACEMESH_LEFT_EYE :=
    [(263, 249); (249, 390); (390, 373); (373, 374); (374, 380); (380, 381);
     (381, 382); (382, 362); (263, 466); (466, 388); (388, 387); (387, 386);
     (386, 385); (385, 384); (384, 398); (398, 362)];
  FACEMESH_RIGHT_EYE :=
    [(33, 7); (7, 163); (163, 144); (144, 145); (145, 153); (153, 154);
     (154, 155); (155, 133); (33, 246); (246, 161); (161, 160); (160, 159);
     (159, 158); (158, 157); (157, 173); (173, 133)];
  FACEMESH_LEFT_IRIS := [(474, 475); (475, 476); (476, 477); (477, 474)];
  FACEMESH_RIGHT_IRIS := [(469, 470); (470, 471); (471, 472); (472, 469)];
  FACEMESH_LIPS :=
    [(61, 146); (146, 91); (91, 181); (181, 84); (84, 17); (17, 314);
     (314, 405); (405, 321); (321, 375); (375, 291); (61, 185); (185, 40);
     (40, 39); (39, 37); (37, 0); (0, 267); (267, 269); (269, 270);
     (270, 409); (409, 291); (78, 95); (95, 88); (88, 178); (178, 87);
     (87, 14); (14, 317); (317, 402); (402, 318); (318, 324); (324, 308);
     (78, 191); (191, 80); (80, 81); (81, 82); (82, 13); (13, 312);
     (312, 311); (311, 310); (310, 415); (415, 308)]
}.

(* ================================================================= *)
(** ** The vocabulary of the properties *)

Section Vocabulary.
Context {F : Type} {NF : Number F} {HF : HelperFilters F} {HOL : Holistic}.
Implicit Type p : Poses F.
Local Open Scope js_scope.
Local Open Scope method_scope.

(** The value of the time counter after any call of [updatePosition]. *)
Definition ticked (l : FilteredVectorLandmark F) (dt : F) : F :=
  match _tIncrementMode l with
  | Universal => _t l + fromZ 1
  | RealTime => _t l + dt
  end.

(** The method [m] leaves the observation [f] of the object as it is, however
    the method ends. *)
Definition preserves {A X : Type} (f : Poses F -> X) (m : M F A) : Prop :=
  forall p, f (fst (m p)) = f p.

(** The two hip landmarks of a pose list when the calibration condition holds
    for it: both entries exist and both confidences are above the threshold. *)
Definition qualifying (l : NormalizedLandmarkList F)
  : option (NormalizedLandmark F * NormalizedLandmark F) :=
  match nth_error l LEFT_HIP, nth_error l RIGHT_HIP with
  | Some lh, Some rh => if visible lh && visible rh then Some (lh, rh) else None
  | _, _ => None
  end.

(** The same for the results of a frame, whose pose list is the field [ea]. *)
Definition qualifies (results : option (Results F))
  : option (NormalizedLandmark F * NormalizedLandmark F) :=
  match results with
  | Some r => match ea r with Some l => qualifying l | None => None end
  | None => None
  end.

(** The offset of the pose set. *)
Definition poseOffset p : Vector3 F := mkVector3 (fromZ 0) (y (midHipBase p)) (fromZ 0).

(** What [rememberInitialOffset] leaves in the two calibration fields. *)
Definition calibrated (first : bool) (base : Vector3 F)
    (q : option (NormalizedLandmark F * NormalizedLandmark F)) : Vector3 F * bool :=
  match first, q with
  | true, Some (lh, rh) => (hipMidpoint lh rh, false)
  | _, _ => (base, first)
  end.

(** What the pose block leaves is what [process] leaves, for every field the
    face block, the face normal and the export do not write. *)
Definition poseFields p :=
  (givenEa p, poseLandmarks p, inputPoseLandmarks p, console p, midHipBase p, firstResult p).
(** The hip test of [preProcessResults] raises: the object is not calibrated
    yet and the condition, evaluated from the left, reaches a hip entry the
    list does not have (the left one, or the right one once the left one is
    seen with a confidence above the threshold). *)
Definition hipTestRaises p (l : NormalizedLandmarkList F) : bool :=
  firstResult p &&
  match nth_error l LEFT_HIP with
  | None => true
  | Some lh =>
    visible lh &&
    match nth_error l RIGHT_HIP with
    | None => true
    | Some _ => false
    end
  end.

(** The pose block of [preProcessResults] ends without an exception: there
    is no pose list in [ea], or the hip test does not raise and the list is
    not longer than the filtered pose set. *)
Definition poseBlockCompletes p (r : Results F) : bool :=
  match ea r with
  | None => true
  | Some l =>
    negb (hipTestRaises p l) && Nat.leb (List.length l) (List.length (poseLandmarks p))
  end.

(** The lines a [process] call prints for given results: the warning, when
    the pose list in [ea] has not the length of the pose set. *)
Definition poseWarning (r : Results F) : list ConsoleLine :=
  match ea r with
  | Some l =>
    if Nat.eqb (List.length l) POSE_LANDMARK_LENGTH then []
    else [PoseLandmarkLengthWarning POSE_LANDMARK_LENGTH]
  | None => []
  end.


End Vocabulary.

(* ================================================================= *)
(** ** Frames for the program as it runs *)

(** The landmark of the body-pose set, as [new Poses()] builds it. *)
Definition poseLandmark : FilteredVectorLandmark float :=
  new_FilteredVectorLandmark (ratio 1 100) (fromZ 2) (ratio 7 1000).

(** A landmark after one accepted frame: position (0.5, 0.5, 0), confidence 0.9. *)
Definition seenLandmark : FilteredVectorLandmark float :=
  updatePosition poseLandmark (ratio 16 1000)
    (mkVector3 (ratio 1 2) (ratio 1 2) (fromZ 0)) (Some (ratio 9 10)).

(** The object of the worker, [new Poses()], on binary64 numbers. *)
Definition startPoses : Poses float := new_Poses.

(** The landmark at (xn/d, yn/d, zn/d). *)
Definition landmark (xn yn zn d : Z) (v : option float) : NormalizedLandmark float :=
  mkLandmark (ratio xn d) (ratio yn d) (ratio zn d) v.

(** The time between two frames at 60 frames per second. *)
Definition dt60 : float := ratio 16 1000.

(** A pose list of 33 landmarks at (0.5, 0.5, 0), all with confidence 0.9. *)
Definition standingFrame : Results float :=
  mkResults (Some (repeat (landmark 5 5 0 10 (Some (ratio 9 10))) 33)) None None.

(** The same list with every confidence at 0.3. *)
Definition hiddenFrame : Results float :=
  mkResults (Some (repeat (landmark 5 5 0 10 (Some (ratio 3 10))) 33)) None None.

(** A pose list of one landmark. *)
Definition shortFrame : Results float :=
  mkResults (Some [landmark 1 1 0 1 (Some (ratio 9 10))]) None None.

(** The object after the calibrating frame. *)
Definition calibratedPoses : Poses float :=
  fst (process (Some standingFrame) dt60 startPoses).

(** A face list of 478 landmarks at (0.5, 0.5, 0.25), without confidence. *)
Definition faceFrame : Results float :=
  mkResults None None (Some (repeat (landmark 50 50 25 100 None) 478)).

(** A pose list with the four key points of the face normal at the given
    landmarks and every other landmark at the origin. *)
Definition poseListWith (lei rei ml mr : NormalizedLandmark float)
  : NormalizedLandmarkList float :=
  map (fun i => if Nat.eqb i 1 then lei else if Nat.eqb i 4 then rei
                else if Nat.eqb i 9 then ml else if Nat.eqb i 10 then mr
                else landmark 0 0 0 1 None)
      (seq 0 33).



(** The list [poseLandmarks] of the results, of which the worker only tests
    the presence. *)
Definition imageLandmarks : NormalizedLandmarkList float :=
  repeat (landmark 1 1 0 2 None) 33.






(** The frame [crossFrame] with the inner corner of the right eye moved by
    2^-600 along z. *)
Definition tinyFrame : Results float :=
  mkResults
    (Some (poseListWith (landmark 1 0 0 1 None)
                        (mkLandmark (-1)%float 0%float 0x1p-600%float None)
                        (landmark 0 1 0 1 None) (landmark 0 (-1) 0 1 None)))
    (Some imageLandmarks) None.






(** Results with the three lists: the pose list of [standingFrame] in [ea],
    the image landmarks, and the face list of [faceFrame]. *)
Definition fullFrame : Results float :=
  mkResults (Some (repeat (landmark 5 5 0 10 (Some (ratio 9 10))) 33))
            (Some imageLandmarks)
            (Some (repeat (landmark 50 50 25 100 None) 478)).

(* ================================================================= *)
(** ** Further vocabulary: invariants of the object and well-formed frames *)

Section Invariants.
Context {F : Type} {NF : Number F} {HF : HelperFilters F} {HOL : Holistic}.
Implicit Type p : Poses F.

(** Every filtered landmark of the object is in the Universal mode, the value
    the field [_tIncrementMode] is initialized with. *)
Definition universalPoses p : Prop :=
  Forall (fun l => _tIncrementMode l = Universal) (poseLandmarks p) /\
  Forall (fun l => _tIncrementMode l = Universal) (faceLandmarks p).

(** The three lists of the object that [new Poses()] builds with a fixed
    length have that length. *)
Definition shaped p : Prop :=
  List.length (poseLandmarks p) = POSE_LANDMARK_LENGTH /\
  List.length (faceLandmarks p) = FACE_LANDMARK_LENGTH /\
  List.length (cloneablePoseLandmarks p) = POSE_LANDMARK_LENGTH.

(** The index arrays of the seven face-mesh sub-regions. *)
Definition meshIndexLists : list (list nat) := map idxArrOf faceMeshConnections.

(** The constants fit the lengths: the pose indices the worker reads are
    inside the pose list, every index of the connection tables is inside the
    face list, and the sub-regions of the eyes and of the lips have the
    positions 8, 8 and 10 the key points are read at. *)
Definition constantsOk : bool :=
  Nat.ltb LEFT_HIP POSE_LANDMARK_LENGTH && Nat.ltb RIGHT_HIP POSE_LANDMARK_LENGTH &&
  Nat.ltb LEFT_EYE_INNER POSE_LANDMARK_LENGTH &&
  Nat.ltb RIGHT_EYE_INNER POSE_LANDMARK_LENGTH &&
  Nat.ltb LEFT_RIGHT POSE_LANDMARK_LENGTH && Nat.ltb RIGHT_LEFT POSE_LANDMARK_LENGTH &&
  forallb (forallb (fun i => Nat.ltb i FACE_LANDMARK_LENGTH)) meshIndexLists &&
  Nat.ltb 8 (List.length (idxArrOf FACEMESH_LEFT_EYE)) &&
  Nat.ltb 8 (List.length (idxArrOf FACEMESH_RIGHT_EYE)) &&
  Nat.ltb 10 (List.length (idxArrOf FACEMESH_LIPS)).

(** [faceLandmarks[faceMeshLandmarkIndexList[g][j]]] once the index arrays are
    those of the connection tables: [undefined] when a position is missing. *)
Definition meshKey (fl : FilteredVectorLandmarkList F) (g j : nat)
  : option (FilteredVectorLandmark F) :=
  match nth_error meshIndexLists g with
  | Some idxArr =>
    match nth_error idxArr j with
    | Some i => nth_error fl i
    | None => None
    end
  | None => None
  end.

(** The lists of a frame have the lengths of the two landmark sets. *)
Definition wellFormedFrame (r : Results F) : bool :=
  match ea r with
  | Some l => Nat.eqb (List.length l) POSE_LANDMARK_LENGTH
  | None => true
  end &&
  match r_faceLandmarks r with
  | Some l => Nat.eqb (List.length l) FACE_LANDMARK_LENGTH
  | None => true
  end.

(** The modes of the filtered landmarks of both sets, which also give the
    lengths of the two lists, and the length of the exported pose list. *)
Definition modes p :=
  (map (@_tIncrementMode F) (poseLandmarks p), map (@_tIncrementMode F) (faceLandmarks p),
   List.length (cloneablePoseLandmarks p)).

(** Everything of a filtered landmark but its time counter. *)
Definition held (l : FilteredVectorLandmark F) :=
  (oneEuroVectorFilter l, highPassFilter l, _tIncrementMode l, _pos l, visibility l).

(** The confidence gate of [updatePosition] rejects the landmark. *)
Definition lowConfidence (v : NormalizedLandmark F) : bool :=
  negb (accepted (nl_visibility v)).

(** Results that give the pose set nothing to accept: no results, no pose
    list in [ea], or a pose list of which the gate rejects every landmark. *)
Definition poseHidden (results : option (Results F)) : bool :=
  match results with
  | Some r =>
    match ea r with
    | Some l => forallb lowConfidence l
    | None => true
    end
  | None => true
  end.

(** The time counter [t] after [n] increments by 1. *)
Fixpoint tick (n : nat) (t : F) : F :=
  match n with
  | O => t
  | S n' => tick n' (nadd t (fromZ 1))
  end.

(** The number of frames whose results carry a pose list (in [ea]). *)
Fixpoint poseFrames (frames : list (option (Results F) * F)) : nat :=
  match frames with
  | [] => 0
  | (Some r, _) :: rest =>
    match ea r with
    | Some _ => S (poseFrames rest)
    | None => poseFrames rest
    end
  | (None, _) :: rest => poseFrames rest
  end.

(** The landmark [postPoseLandmarks] writes for a filtered landmark. *)
Definition exportLandmark (l : FilteredVectorLandmark F) : NormalizedLandmark F :=
  mkLandmark (x (_pos l)) (y (_pos l)) (z (_pos l)) (visibility l).
End Invariants.

(* ================================================================= *)
(** ** Tactics and facts about the numbers *)

(** Two floats that a boolean test tells apart are different. *)
Lemma float_neq (g : float -> bool) (a b : float) : g a <> g b -> a <> b.
Proof. intros H E. apply H. now rewrite E. Qed.

Lemma Some_eq_inv (A : Type) (a b : A) : Some a = Some b -> a = b.
Proof. intros H. now injection H. Qed.

Lemma pair_eq_inv (A B : Type) (a c : A) (b d : B) :
  (a, b) = (c, d) -> a = c /\ b = d.
Proof. intros H. now injection H. Qed.

Ltac float_neq c :=
  apply (float_neq (fun v => PrimFloat.eqb v c)); vm_compute; discriminate.

(** The decimal literals of the source are the quotients used for them. *)
Example literal_0_6 : @VISIBILITY_THRESHOLD float _ = 0x1.3333333333333p-1%float.
Proof. reflexivity. Qed.
Example literal_0_5 : @ratio float _ 1 2 = 0.5%float.
Proof. reflexivity. Qed.

(* ================================================================= *)
(** ** FilteredVectorLandmark: the confidence gate and the time counter *)

Section LandmarkFacts.
Context {F : Type} {NF : Number F} {HF : HelperFilters F}.
Local Open Scope js_scope.

Lemma advance_ticked (l : FilteredVectorLandmark F) (dt : F) :
  advance l dt = set_t l (ticked l dt).
Proof. unfold advance, ticked. now destruct (_tIncrementMode l). Qed.

(** A confidence is rejected exactly when it is a number other than 0 and
    NaN that is not above the threshold. *)
Lemma accepted_false_iff (vis : option F) :
  accepted vis = false <->
  exists v, vis = Some v /\ truthy v = true /\ (v >? VISIBILITY_THRESHOLD) = false.
Proof.
  unfold accepted, falsy. split.
  - destruct vis as [v|]; [|discriminate].
    intros H. apply orb_false_iff in H as [H1 H2].
    exists v. repeat split; auto. now apply negb_false_iff.
  - intros (v & -> & Ht & Hg). now rewrite Ht, Hg.
Qed.

(** A rejected call changes the time counter and nothing else. *)
Lemma updatePosition_rejected (l : FilteredVectorLandmark F) (dt : F)
    (p : Vector3 F) (vis : option F) :
  accepted vis = false ->
  updatePosition l dt p vis = set_t l (ticked l dt).
Proof. intros H. unfold updatePosition. rewrite H. apply advance_ticked. Qed.

(** For a confidence other than 0 and NaN the gate of the spec holds: below
    (or at) the threshold the position and the confidence stay. *)
Lemma updatePosition_frozen (l : FilteredVectorLandmark F) (dt : F)
    (p : Vector3 F) (v : F) :
  truthy v = true -> (v >? VISIBILITY_THRESHOLD) = false ->
  _pos (updatePosition l dt p (Some v)) = _pos l /\
  visibility (updatePosition l dt p (Some v)) = visibility l.
Proof.
  intros Ht Hg. rewrite updatePosition_rejected; [now split|].
  apply accepted_false_iff. now exists v.
Qed.

Lemma updatePosition_t (l : FilteredVectorLandmark F) (dt : F)
    (p : Vector3 F) (vis : option F) :
  _t (updatePosition l dt p vis) = ticked l dt.
Proof.
  unfold updatePosition. rewrite advance_ticked.
  destruct (accepted vis); [|reflexivity].
  cbn [oneEuroVectorFilter set_t _t].
  now destruct (next _ _ _).
Qed.

(** An accepted call stores the output of the two filters and the given
    confidence. *)
Lemma updatePosition_accepted (l : FilteredVectorLandmark F) (dt : F)
    (p : Vector3 F) (vis : option F) :
  accepted vis = true ->
  let r := next (oneEuroVectorFilter l) (ticked l dt) p in
  let h := update (highPassFilter l) (snd r) in
  updatePosition l dt p vis =
  mkFiltered (fst r) h (_tIncrementMode l) (ticked l dt) (value h) vis.
Proof.
  intros H. unfold updatePosition. rewrite H, advance_ticked.
  cbn [oneEuroVectorFilter highPassFilter set_t _t _tIncrementMode].
  now destruct (next _ _ _).
Qed.

(** [updateFilterParameters] never touches anything but the two parameters
    of the low-pass filter. *)
Lemma updateFilterParameters_state (l : FilteredVectorLandmark F)
    (c b d : option F) :
  let l' := updateFilterParameters l c b d in
  _pos l' = _pos l /\ _t l' = _t l /\ visibility l' = visibility l /\
  _tIncrementMode l' = _tIncrementMode l /\
  highPassFilter l' = highPassFilter l /\
  t_prev (oneEuroVectorFilter l') = t_prev (oneEuroVectorFilter l) /\
  x_prev (oneEuroVectorFilter l') = x_prev (oneEuroVectorFilter l) /\
  dx_prev (oneEuroVectorFilter l') = dx_prev (oneEuroVectorFilter l) /\
  d_cutoff (oneEuroVectorFilter l') = d_cutoff (oneEuroVectorFilter l) /\
  started (oneEuroVectorFilter l') = started (oneEuroVectorFilter l).
Proof.
  unfold updateFilterParameters.
  destruct c as [c|], b as [b|];
    try destruct (truthy c); try destruct (truthy b); cbn; repeat split.
Qed.

(** Arguments other than 0 and NaN are stored. *)
Lemma updateFilterParameters_truthy (l : FilteredVectorLandmark F) (c b : F)
    (d : option F) :
  truthy c = true -> truthy b = true ->
  let l' := updateFilterParameters l (Some c) (Some b) d in
  min_cutoff (oneEuroVectorFilter l') = c /\ beta (oneEuroVectorFilter l') = b.
Proof.
  intros Hc Hb. unfold updateFilterParameters. rewrite Hc, Hb. now split.
Qed.

(** C3 (as amended).  The time counter advances on every call of
    [updatePosition], by 1 in the default Universal mode and by [dt] in the
    RealTime mode, whether the confidence gate accepts the call or not; a
    call the gate rejects changes the counter and nothing else of the
    landmark (position, confidence and the state of both filters stay). *)
Theorem updatePosition_time_counter (l : FilteredVectorLandmark F) (dt : F)
    (p : Vector3 F) (vis : option F) :
  _t (updatePosition l dt p vis) = ticked l dt /\
  (accepted vis = false -> updatePosition l dt p vis = set_t l (ticked l dt)).
Proof.
  split; [apply updatePosition_t | apply updatePosition_rejected].
Qed.
End LandmarkFacts.

Example seenLandmark_state :
  _pos seenLandmark = mkVector3 0.5%float 0.5%float 0%float /\
  visibility seenLandmark = Some (ratio 9 10) /\ _t seenLandmark = 1%float.
Proof. vm_compute. repeat split. Qed.

(** C1 (the code at the failing input).  A confidence of 0 is a confidence
    that is present and below 0.6, and the call is not skipped: [!visibility]
    is true for 0, so the sample goes through both filters, the position moves
    and the stored confidence becomes 0. *)
Theorem updatePosition_confidence_zero_accepted :
  let l' := updatePosition seenLandmark (ratio 16 1000)
              (mkVector3 (fromZ 1) (fromZ 1) (fromZ 0)) (Some (fromZ 0)) in
  (fromZ 0 <? @VISIBILITY_THRESHOLD float _)%js = true /\
  visibility l' = Some (fromZ 0) /\
  visibility l' <> visibility seenLandmark /\
  _pos l' <> _pos seenLandmark.
Proof.
  cbv zeta. split; [now vm_compute|]. split; [now vm_compute|]. split.
  - intros H. apply Some_eq_inv in H. revert H. float_neq 0%float.
  - intros H. apply (f_equal (@x float)) in H. revert H.
    apply (float_neq (fun v => PrimFloat.ltb v (ratio 7 10))).
    vm_compute. discriminate.
Qed.

(** C3 (counterexample).  A call with confidence 0.3 is rejected by the gate
    and the time counter still goes from 0 to 1. *)
Lemma updatePosition_rejected_advances_t :
  accepted (Some (@ratio float _ 3 10)) = false /\
  _t (updatePosition poseLandmark (ratio 16 1000)
        (mkVector3 (fromZ 1) (fromZ 1) (fromZ 0)) (Some (ratio 3 10)))
  <> _t poseLandmark.
Proof.
  split; [now vm_compute|]. float_neq 0%float.
Qed.

Lemma updatePosition_time_counter_witness :
  accepted (Some (@ratio float _ 3 10)) = false /\
  updatePosition poseLandmark (ratio 16 1000) Zero (Some (ratio 3 10))
  = set_t poseLandmark (ticked poseLandmark (ratio 16 1000)).
Proof.
  split; [now vm_compute|].
  apply (updatePosition_time_counter poseLandmark (ratio 16 1000) Zero (Some (ratio 3 10))).
  now vm_compute.
Defined.

(** C10 (the code at the failing input).  [beta = 0] is a provided argument
    (it is the default of the constructor) and [if (beta)] does not store it:
    the filter keeps its beta of 2, while the cutoff given with it is set. *)
Theorem updateFilterParameters_beta_zero_ignored :
  let l' := updateFilterParameters poseLandmark (Some (ratio 5 100)) (Some (fromZ 0)) None in
  min_cutoff (oneEuroVectorFilter l') = ratio 5 100 /\
  beta (oneEuroVectorFilter l') = fromZ 2 /\
  beta (oneEuroVectorFilter l') <> fromZ 0.
Proof.
  cbv zeta. split; [now vm_compute|]. split; [now vm_compute|].
  float_neq 0%float.
Qed.

(* ================================================================= *)
(** ** The filtering loop *)

Section FilteringLoop.
Context {F : Type} {NF : Number F} {HF : HelperFilters F}.

Lemma setNth_app {A : Type} (l1 l2 : list A) (v w : A) :
  setNth (List.length l1) v (l1 ++ w :: l2) = l1 ++ v :: l2.
Proof. induction l1 as [|h t IH]; cbn; [reflexivity|now rewrite IH]. Qed.

Lemma nth_error_middle {A : Type} (l1 l2 : list A) (v : A) :
  nth_error (l1 ++ v :: l2) (List.length l1) = Some v.
Proof. induction l1 as [|h t IH]; cbn; [reflexivity|exact IH]. Qed.

(** After the first [length rs1] iterations the loop goes on as the recursion
    on the remaining lists does. *)
Lemma filteringLoop_from (dt : F) (rs2 : NormalizedLandmarkList F) :
  forall (rs1 : NormalizedLandmarkList F) (fs1 fs2 : FilteredVectorLandmarkList F),
    List.length fs1 = List.length rs1 ->
    filteringLoop (List.length rs2) (List.length rs1) dt (rs1 ++ rs2) (fs1 ++ fs2) =
    (fs1 ++ fst (noiseFiltering dt rs2 fs2), snd (noiseFiltering dt rs2 fs2)).
Proof.
  induction rs2 as [|r rs2 IH]; intros rs1 fs1 fs2 Hlen; [reflexivity|].
  cbn [List.length filteringLoop]. rewrite nth_error_middle, <- Hlen.
  destruct fs2 as [|f fs2].
  - rewrite app_nil_r, (proj2 (nth_error_None fs1 (List.length fs1)) (le_n _)).
    cbn. now rewrite app_nil_r.
  - rewrite nth_error_middle, setNth_app.
    specialize (IH (rs1 ++ [r])
                   (fs1 ++ [updatePosition f dt (normalizedLandmarkToVector r)
                                           (nl_visibility r)])
                   fs2).
    rewrite !length_app, <- !app_assoc in IH. cbn [List.length app] in IH.
    rewrite !Nat.add_1_r, Hlen in IH. rewrite Hlen, IH by reflexivity.
    cbn [noiseFiltering]. now destruct (noiseFiltering dt rs2 fs2).
Qed.

Lemma filteringLoop_noiseFiltering (dt : F) (rs : NormalizedLandmarkList F)
    (fs : FilteredVectorLandmarkList F) :
  filteringLoop (List.length rs) 0 dt rs fs = noiseFiltering dt rs fs.
Proof.
  pose proof (filteringLoop_from dt rs [] [] fs eq_refl) as H.
  cbn [List.length app] in H. rewrite H.
  now destruct (noiseFiltering dt rs fs).
Qed.

Lemma preProcessLandmarks_eq `{HOL : Holistic} (rs : NormalizedLandmarkList F)
    (fs : FilteredVectorLandmarkList F) (dt : F) (offset : Vector3 F) :
  preProcessLandmarks rs fs dt offset =
  (map (transform offset) rs,
   fst (noiseFiltering dt (map (transform offset) rs) fs),
   snd (noiseFiltering dt (map (transform offset) rs) fs)).
Proof.
  unfold preProcessLandmarks. rewrite filteringLoop_noiseFiltering.
  now destruct (noiseFiltering dt (map (transform offset) rs) fs).
Qed.
End FilteringLoop.

(* ================================================================= *)
(** ** Which method writes which field *)

Section Frames.
Context {F : Type} {NF : Number F} {HF : HelperFilters F} {HOL : Holistic}.
Local Open Scope method_scope.

Lemma preserves_ret {A X} (f : Poses F -> X) (a : A) : preserves f (ret a).
Proof. now intros p. Qed.

Lemma preserves_lift {A X} (f : Poses F -> X) (c : completion A) :
  preserves f (lift c).
Proof. now intros p. Qed.

Lemma preserves_modify {X} (f : Poses F -> X) (g : Poses F -> Poses F) :
  (forall p, f (g p) = f p) -> preserves f (modify g).
Proof. intros H p. apply H. Qed.

Lemma preserves_bind {A B X} (f : Poses F -> X) (m : M F A) (k : A -> M F B) :
  preserves f m -> (forall a, preserves f (k a)) -> preserves f (bind m k).
Proof.
  intros Hm Hk p. unfold bind.
  specialize (Hm p). destruct (m p) as [p' [a|]]; cbn in *.
  - now rewrite Hk.
  - assumption.
Qed.

Lemma preserves_if {A X} (f : Poses F -> X) (b : bool) (m1 m2 : M F A) :
  preserves f m1 -> preserves f m2 -> preserves f (if b then m1 else m2).
Proof. now destruct b. Qed.
End Frames.

(** Side conditions of the frame lemmas: an observation that does not read
    the field a setter writes. *)
Ltac untouched :=
  intros;
  repeat match goal with f := _ |- _ => subst f end;
  unfold set_ea, set_r_faceLandmarks, givenEa, givenPose, givenFace; cbn;
  try match goal with
      | |- context [cloneableInputResults ?q] =>
        is_var q;
        let E := fresh "E" in
        destruct (cloneableInputResults q) eqn:E; cbn; rewrite ?E
      end;
  reflexivity.

Section StepFrames.
Context {F : Type} {NF : Number F} {HF : HelperFilters F} {HOL : Holistic}.
Local Open Scope method_scope.

Lemma rememberInitialOffset_frame {X} (f : Poses F -> X) l :
  (forall p v, f (set_midHipBase p v) = f p) ->
  (forall p v, f (set_firstResult p v) = f p) ->
  preserves f (rememberInitialOffset l).
Proof.
  intros H1 H2 p. unfold rememberInitialOffset.
  destruct (firstResult p); [|reflexivity].
  revert p. apply preserves_bind; [apply preserves_lift|]. intros lh.
  apply preserves_if; [|apply preserves_ret].
  apply preserves_bind; [apply preserves_lift|]. intros rh.
  apply preserves_if; [|apply preserves_ret].
  apply preserves_modify. intros p. now rewrite H2, H1.
Qed.

Lemma preProcessFace_frame {X} (f : Poses F -> X) dt l :
  (forall p v, f (set_r_faceLandmarks p v) = f p) ->
  (forall p v, f (set_faceLandmarks p v) = f p) ->
  (forall p v, f (set_inputFaceLandmarks p v) = f p) ->
  preserves f (preProcessFace dt l).
Proof.
  intros E H2 H3 p. unfold preProcessFace.
  destruct (preProcessLandmarks _ _ _ _) as [[l' fs'] c].
  destruct c; cbn [fst]; now rewrite ?H3, ?H2, ?E.
Qed.

Lemma preProcessPose_frame {X} (f : Poses F -> X) dt l :
  (forall p v, f (set_ea p v) = f p) ->
  (forall p v, f (set_poseLandmarks p v) = f p) ->
  (forall p v, f (set_inputPoseLandmarks p v) = f p) ->
  (forall p v, f (set_midHipBase p v) = f p) ->
  (forall p v, f (set_firstResult p v) = f p) ->
  (forall p v, f (warn p v) = f p) ->
  preserves f (preProcessPose dt l).
Proof.
  intros E H2 H3 H4 H5 H6. unfold preProcessPose.
  apply preserves_bind.
  { apply preserves_modify. intros p. unfold checkLength.
    destruct (Nat.eqb _ _); [reflexivity|apply H6]. }
  intros _. apply preserves_bind; [now apply rememberInitialOffset_frame|].
  intros _ p. unfold filterPoseLandmarks.
  destruct (preProcessLandmarks _ _ _ _) as [[l' fs'] c].
  destruct c; cbn [fst]; now rewrite ?H3, ?H2, ?E.
Qed.

Lemma unpackFaceMesh_frame {X} (f : Poses F -> X) cs :
  (forall p v, f (set_faceMeshLandmarkIndexList p v) = f p) ->
  (forall p v, f (set_faceMeshLandmarkList p v) = f p) ->
  preserves f (unpackFaceMesh cs).
Proof.
  intros H1 H2. induction cs as [|c cs IH]; cbn [unpackFaceMesh].
  - apply preserves_ret.
  - apply preserves_bind; [apply preserves_modify; intros; apply H1|]. intros _.
    apply preserves_bind; [intros p; reflexivity|]. intros arr.
    apply preserves_bind; [apply preserves_modify; intros; apply H2|]. intros _.
    exact IH.
Qed.

Lemma meshLandmark_frame {X} (f : Poses F -> X) g j : preserves f (meshLandmark g j).
Proof.
  intros p. unfold meshLandmark.
  now destruct (nth_error (_faceMeshLandmarkIndexList p) g).
Qed.

Lemma keyPoints_frame {X} (f : Poses F -> X) :
  (forall p v, f (set_faceMeshLandmarkIndexList p v) = f p) ->
  (forall p v, f (set_faceMeshLandmarkList p v) = f p) ->
  preserves f keyPoints.
Proof.
  intros H1 H2 p. unfold keyPoints.
  destruct (negb _); [now destruct (negb _)|].
  revert p. apply preserves_bind.
  { apply preserves_modify. intros p. now rewrite H2, H1. }
  intros _. apply preserves_bind; [now apply unpackFaceMesh_frame|]. intros _.
  repeat (apply preserves_bind; [apply meshLandmark_frame|]; intros ?).
  apply preserves_ret.
Qed.

Lemma calculateNormals_frame {X} (f : Poses F -> X) k :
  (forall p v, f (set_faceNormals p v) = f p) ->
  preserves f (calculateNormals k).
Proof.
  intros H3. destruct k as [[[lei rei] ml] mr]. unfold calculateNormals.
  apply preserves_bind; [apply preserves_modify; intros; apply H3|]. intros _.
  apply preserves_bind; [apply preserves_lift|]. intros s.
  apply preserves_modify; intros; apply H3.
Qed.

Lemma calcFaceNormal_frame {X} (f : Poses F -> X) :
  (forall p v, f (set_faceMeshLandmarkIndexList p v) = f p) ->
  (forall p v, f (set_faceMeshLandmarkList p v) = f p) ->
  (forall p v, f (set_faceNormals p v) = f p) ->
  preserves f calcFaceNormal.
Proof.
  intros H1 H2 H3. unfold calcFaceNormal.
  apply preserves_bind; [now apply keyPoints_frame|].
  intros [k|]; [now apply calculateNormals_frame|apply preserves_ret].
Qed.

Lemma postPoseLandmarks_frame {X} (f : Poses F -> X) :
  (forall p v, f (set_cloneablePoseLandmarks p v) = f p) ->
  preserves f postPoseLandmarks.
Proof.
  intros H p. unfold postPoseLandmarks.
  destruct (copyPoseLandmarks _ _). apply H.
Qed.
End StepFrames.

(* ================================================================= *)
(** ** A frame without one of the landmark sets *)

Section MissingInput.
Context {F : Type} {NF : Number F} {HF : HelperFilters F} {HOL : Holistic}.
Implicit Type p : Poses F.
Local Open Scope method_scope.

Lemma bind_fst {A B X} (f : Poses F -> X) (m : M F A) (k : A -> M F B) p :
  f (fst (m p)) = f p ->
  (forall a q, f q = f p -> f (fst (k a q)) = f p) ->
  f (fst (bind m k p)) = f p.
Proof.
  intros Hm Hk. unfold bind. destruct (m p) as [q [a|]]; cbn in *.
  - now apply Hk.
  - assumption.
Qed.

Lemma preProcessPoseIfGiven_frame {X} (f : Poses F -> X) dt :
  (forall p v, f (set_ea p v) = f p) ->
  (forall p v, f (set_poseLandmarks p v) = f p) ->
  (forall p v, f (set_inputPoseLandmarks p v) = f p) ->
  (forall p v, f (set_midHipBase p v) = f p) ->
  (forall p v, f (set_firstResult p v) = f p) ->
  (forall p v, f (warn p v) = f p) ->
  preserves f (preProcessPoseIfGiven dt).
Proof.
  intros H1 H2 H3 H4 H5 H6 p. unfold preProcessPoseIfGiven.
  destruct (cloneableInputResults p) as [r|]; [|reflexivity].
  destruct (ea r) as [l|]; [|reflexivity].
  now apply preProcessPose_frame.
Qed.

Lemma preProcessFaceIfGiven_frame {X} (f : Poses F -> X) dt :
  (forall p v, f (set_r_faceLandmarks p v) = f p) ->
  (forall p v, f (set_faceLandmarks p v) = f p) ->
  (forall p v, f (set_inputFaceLandmarks p v) = f p) ->
  preserves f (preProcessFaceIfGiven dt).
Proof.
  intros H1 H2 H3 p. unfold preProcessFaceIfGiven.
  destruct (cloneableInputResults p) as [r|]; [|reflexivity].
  destruct (r_faceLandmarks r) as [l|]; [|reflexivity].
  now apply preProcessFace_frame.
Qed.

(** Without a pose list in [ea] the first block does nothing. *)
Lemma preProcessPoseIfGiven_absent dt p r :
  cloneableInputResults p = Some r -> ea r = None ->
  preProcessPoseIfGiven dt p = (p, Normal tt).
Proof. intros H1 H2. unfold preProcessPoseIfGiven. now rewrite H1, H2. Qed.

(** Without a face list the second block does nothing. *)
Lemma preProcessFaceIfGiven_absent dt p :
  givenFace p = None -> preProcessFaceIfGiven dt p = (p, Normal tt).
Proof.
  unfold givenFace, preProcessFaceIfGiven.
  destruct (cloneableInputResults p) as [r|]; [|reflexivity].
  now intros ->.
Qed.

(** Without a face list the key points come from the pose set, and the
    object is not written; without both lists there are no key points. *)
Lemma keyPoints_no_face p :
  givenFace p = None ->
  fst (keyPoints p) = p /\ (givenPose p = None -> keyPoints p = (p, Normal None)).
Proof.
  unfold givenFace, givenPose, keyPoints.
  destruct (cloneableInputResults p) as [r|]; cbn.
  - intros ->. cbn. destruct (r_poseLandmarks r); cbn; split; try reflexivity.
    discriminate.
  - intros _. now split.
Qed.

Lemma calcFaceNormal_no_face {X} (f : Poses F -> X) p :
  (forall q v, f (set_faceNormals q v) = f q) ->
  givenFace p = None -> f (fst (calcFaceNormal p)) = f p.
Proof.
  intros H Hf. destruct (keyPoints_no_face p Hf) as [E _].
  unfold calcFaceNormal, bind at 1.
  destruct (keyPoints p) as [q [[k|]|]]; cbn in E; subst q; try reflexivity.
  now apply calculateNormals_frame.
Qed.

Lemma calcFaceNormal_no_input p :
  givenFace p = None -> givenPose p = None -> calcFaceNormal p = (p, Normal tt).
Proof.
  intros Hf Hp. destruct (keyPoints_no_face p Hf) as [_ E].
  unfold calcFaceNormal, bind. now rewrite (E Hp).
Qed.

(** C7.  A landmark set that is absent from the results of a [process] call
    is left untouched by the call, and what depends on it is skipped: without
    the pose list (the field [ea]) every filtered pose landmark, the
    calibration, the stored input and the console stay as they were; without
    the face list every filtered face landmark, the stored input and the
    exported face-mesh regions stay as they were; without both a face list
    and a pose list the face normal is not computed and the exported one
    stays. *)
Theorem process_absent_set_untouched (p : Poses F) (r : Results F) (dt : F) :
  let p' := fst (process (Some r) dt p) in
  (ea r = None ->
   poseLandmarks p' = poseLandmarks p /\ midHipBase p' = midHipBase p /\
   firstResult p' = firstResult p /\
   inputPoseLandmarks p' = inputPoseLandmarks p /\ console p' = console p) /\
  (r_faceLandmarks r = None ->
   faceLandmarks p' = faceLandmarks p /\
   inputFaceLandmarks p' = inputFaceLandmarks p /\
   _faceMeshLandmarkIndexList p' = _faceMeshLandmarkIndexList p /\
   _faceMeshLandmarkList p' = _faceMeshLandmarkList p) /\
  (r_faceLandmarks r = None -> r_poseLandmarks r = None ->
   _faceNormals p' = _faceNormals p).
Proof.
  cbv zeta. unfold process, preProcessResults.
  set (p0 := set_cloneableInputResults p (Some r)).
  split; [|split].
  - intros He.
    pose (f := fun q : Poses F =>
      (poseLandmarks q, midHipBase q, firstResult q, inputPoseLandmarks q, console q)).
    assert (E : f (fst (((preProcessPoseIfGiven dt ;; preProcessFaceIfGiven dt) ;;
                         calcFaceNormal ;; postPoseLandmarks) p0)) = f p0).
    { apply bind_fst.
      - apply bind_fst.
        + now rewrite (preProcessPoseIfGiven_absent dt p0 (r := r)).
        + intros _ q <-. apply preProcessFaceIfGiven_frame; untouched.
      - intros _ q <-.
        apply (preserves_bind (f := f)).
        + apply calcFaceNormal_frame; untouched.
        + intros _. apply postPoseLandmarks_frame; untouched. }
    unfold f in E. cbn [set_cloneableInputResults p0 poseLandmarks midHipBase
      firstResult inputPoseLandmarks console] in E.
    injection E as E1 E2 E3 E4 E5. now repeat split.
  - intros Hf.
    pose (f := fun q : Poses F =>
      (faceLandmarks q, inputFaceLandmarks q, _faceMeshLandmarkIndexList q,
       _faceMeshLandmarkList q, givenFace q)).
    assert (E : f (fst (((preProcessPoseIfGiven dt ;; preProcessFaceIfGiven dt) ;;
                         calcFaceNormal ;; postPoseLandmarks) p0)) = f p0).
    { apply bind_fst.
      - apply bind_fst.
        + apply preProcessPoseIfGiven_frame; untouched.
        + intros _ q Hq. rewrite preProcessFaceIfGiven_absent; [exact Hq|].
          apply (f_equal snd) in Hq. cbn in Hq. now rewrite Hq.
      - intros _ q Hq. rewrite <- Hq. apply bind_fst.
        + apply calcFaceNormal_no_face; [untouched|].
          apply (f_equal snd) in Hq. cbn in Hq. now rewrite Hq.
        + intros _ q' <-. apply postPoseLandmarks_frame; untouched. }
    unfold f in E. injection E as E1 E2 E3 E4 _.
    now repeat split.
  - intros Hf Hp.
    pose (f := fun q : Poses F => (_faceNormals q, givenFace q, givenPose q)).
    assert (E : f (fst (((preProcessPoseIfGiven dt ;; preProcessFaceIfGiven dt) ;;
                         calcFaceNormal ;; postPoseLandmarks) p0)) = f p0).
    { apply bind_fst.
      - apply bind_fst.
        + apply preProcessPoseIfGiven_frame; untouched.
        + intros _ q Hq. rewrite preProcessFaceIfGiven_absent; [exact Hq|].
          apply (f_equal (fun v => snd (fst v))) in Hq. cbn in Hq. now rewrite Hq.
      - intros _ q Hq. rewrite <- Hq. apply bind_fst.
        + rewrite calcFaceNormal_no_input; [reflexivity| |].
          * apply (f_equal (fun v => snd (fst v))) in Hq. cbn in Hq. now rewrite Hq.
          * apply (f_equal snd) in Hq. cbn in Hq. now rewrite Hq.
        + intros _ q' <-. apply postPoseLandmarks_frame; untouched. }
    unfold f in E. now injection E as E1 _ _.
Qed.
End MissingInput.

Lemma process_absent_set_untouched_witness :
  let p' := fst (process (Some (mkResults None None None)) dt60 calibratedPoses) in
  poseLandmarks p' = poseLandmarks calibratedPoses /\
  faceLandmarks p' = faceLandmarks calibratedPoses /\
  _faceNormals p' = _faceNormals calibratedPoses.
Proof.
  cbv zeta.
  destruct (process_absent_set_untouched calibratedPoses (mkResults None None None) dt60)
    as (H1 & H2 & H3).
  split; [apply H1; reflexivity|].
  split; [apply H2; reflexivity|].
  apply H3; reflexivity.
Defined.

(* ================================================================= *)
(** ** Calibration and the coordinate transform *)

Section Calibration.
Context {F : Type} {NF : Number F} {HF : HelperFilters F} {HOL : Holistic}.
Implicit Type p : Poses F.
Local Open Scope js_scope.
Local Open Scope method_scope.

Lemma bind_normal {A B} (m : M F A) (k : A -> M F B) p p' b :
  bind m k p = (p', Normal b) ->
  exists a q, m p = (q, Normal a) /\ k a q = (p', Normal b).
Proof.
  unfold bind. destruct (m p) as [q [a|]]; [|discriminate].
  intros H. now exists a, q.
Qed.

Lemma rememberInitialOffset_done l p :
  firstResult p = false -> rememberInitialOffset l p = (p, Normal tt).
Proof. intros H. unfold rememberInitialOffset. now rewrite H. Qed.

Lemma rememberInitialOffset_first l p lh rh :
  firstResult p = true -> qualifying l = Some (lh, rh) ->
  rememberInitialOffset l p =
  (set_firstResult (set_midHipBase p (hipMidpoint lh rh)) false, Normal tt).
Proof.
  intros H Hq. unfold rememberInitialOffset, qualifying, entry, bind, lift, modify in *.
  rewrite H.
  destruct (nth_error l LEFT_HIP) as [a|]; [|discriminate].
  destruct (nth_error l RIGHT_HIP) as [b|]; [|discriminate].
  destruct (visible a); [|discriminate].
  destruct (visible b); [|discriminate].
  cbn in Hq. now injection Hq as -> ->.
Qed.

Lemma rememberInitialOffset_not_qualifying l p :
  qualifying l = None -> fst (rememberInitialOffset l p) = p.
Proof.
  intros Hq. unfold rememberInitialOffset, qualifying, entry, bind, lift, modify, ret in *.
  destruct (firstResult p); [|reflexivity].
  destruct (nth_error l LEFT_HIP) as [a|]; [|reflexivity].
  destruct (visible a); [|reflexivity].
  destruct (nth_error l RIGHT_HIP) as [b|]; [|reflexivity].
  destruct (visible b); [discriminate|reflexivity].
Qed.

Lemma rememberInitialOffset_calibrated l p :
  let q := fst (rememberInitialOffset l p) in
  (midHipBase q, firstResult q) = calibrated (firstResult p) (midHipBase p) (qualifying l).
Proof.
  cbv zeta. unfold calibrated.
  destruct (firstResult p) eqn:Hf.
  - destruct (qualifying l) as [[lh rh]|] eqn:Hq.
    + now rewrite (rememberInitialOffset_first l p Hf Hq).
    + rewrite (rememberInitialOffset_not_qualifying l p Hq). now rewrite Hf.
  - rewrite (rememberInitialOffset_done l p Hf). cbn [fst]. now rewrite Hf.
Qed.

Lemma preProcessPose_eq dt l p :
  preProcessPose dt l p =
  match rememberInitialOffset l (checkLength l p) with
  | (p2, Normal _) => filterPoseLandmarks dt l p2
  | (p2, TypeError) => (p2, TypeError)
  end.
Proof. reflexivity. Qed.

Lemma checkLength_fields l p :
  poseLandmarks (checkLength l p) = poseLandmarks p /\
  cloneableInputResults (checkLength l p) = cloneableInputResults p /\
  midHipBase (checkLength l p) = midHipBase p /\
  firstResult (checkLength l p) = firstResult p /\
  console (checkLength l p) =
    (if Nat.eqb (List.length l) POSE_LANDMARK_LENGTH then console p
     else console p ++ [PoseLandmarkLengthWarning POSE_LANDMARK_LENGTH]).
Proof. unfold checkLength. now destruct (Nat.eqb _ _). Qed.

Lemma filterPoseLandmarks_calibration dt l p :
  midHipBase (fst (filterPoseLandmarks dt l p)) = midHipBase p /\
  firstResult (fst (filterPoseLandmarks dt l p)) = firstResult p.
Proof.
  unfold filterPoseLandmarks.
  destruct (preProcessLandmarks _ _ _ _) as [[l' fs'] c].
  destruct c; cbn; unfold set_ea; now destruct (cloneableInputResults p).
Qed.

(** The pose block: the calibration fields after it. *)
Lemma preProcessPose_calibration dt l p :
  let q := fst (preProcessPose dt l p) in
  (midHipBase q, firstResult q) = calibrated (firstResult p) (midHipBase p) (qualifying l).
Proof.
  cbv zeta. rewrite preProcessPose_eq.
  destruct (checkLength_fields l p) as (_ & _ & <- & <- & _).
  rewrite <- (rememberInitialOffset_calibrated l (checkLength l p)).
  destruct (rememberInitialOffset l (checkLength l p)) as [p2 [[]|]]; [|reflexivity].
  destruct (filterPoseLandmarks_calibration dt l p2) as [-> ->]. reflexivity.
Qed.

(** The statement that rewrites and filters the pose list. *)
Lemma filterPoseLandmarks_transform dt l p r :
  cloneableInputResults p = Some r ->
  let q := fst (filterPoseLandmarks dt l p) in
  let l' := map (transform (poseOffset p)) l in
  poseOffset q = poseOffset p /\
  givenEa q = Some l' /\
  poseLandmarks q = fst (noiseFiltering dt l' (poseLandmarks p)) /\
  console q = console p /\
  snd (filterPoseLandmarks dt l p) = snd (noiseFiltering dt l' (poseLandmarks p)) /\
  (snd (filterPoseLandmarks dt l p) = Normal tt -> inputPoseLandmarks q = l').
Proof.
  intros Hr. cbv zeta. unfold filterPoseLandmarks. rewrite preProcessLandmarks_eq.
  change (mkVector3 (fromZ 0) (y (midHipBase p)) (fromZ 0)) with (poseOffset p).
  destruct (noiseFiltering dt (map (transform (poseOffset p)) l) (poseLandmarks p))
    as [fs' c]. cbn [fst snd].
  destruct c as [[]|]; unfold givenEa, poseOffset, set_ea; rewrite Hr; cbn;
    repeat split; discriminate.
Qed.

(** The pose block when the hip test does not raise: the list is rewritten
    with the offset of the calibration as this frame leaves it. *)
Lemma preProcessPose_transform dt l p r :
  cloneableInputResults p = Some r ->
  snd (rememberInitialOffset l (checkLength l p)) = Normal tt ->
  let q := fst (preProcessPose dt l p) in
  let l' := map (transform (poseOffset q)) l in
  givenEa q = Some l' /\
  poseLandmarks q = fst (noiseFiltering dt l' (poseLandmarks p)) /\
  console q = console (checkLength l p) /\
  snd (preProcessPose dt l p) = snd (noiseFiltering dt l' (poseLandmarks p)) /\
  (snd (preProcessPose dt l p) = Normal tt -> inputPoseLandmarks q = l').
Proof.
  intros Hr. cbv zeta. rewrite preProcessPose_eq.
  destruct (checkLength_fields l p) as (E1 & E2 & _ & _ & _).
  pose proof (rememberInitialOffset_frame
                (fun q => (poseLandmarks q, cloneableInputResults q, console q)) l
                (fun _ _ => eq_refl) (fun _ _ => eq_refl) (checkLength l p)) as E.
  destruct (rememberInitialOffset l (checkLength l p)) as [p2 [[]|]]; [|discriminate].
  intros _. cbn [fst] in E. injection E as E4 E5 E6.
  rewrite E1 in E4. rewrite E2, Hr in E5.
  destruct (filterPoseLandmarks_transform dt l p2 E5) as (-> & H1 & H2 & H3 & H4 & H5).
  rewrite E4 in *. rewrite <- E6. auto.
Qed.

End Calibration.

Section ProcessFacts.
Context {F : Type} {NF : Number F} {HF : HelperFilters F} {HOL : Holistic}.
Implicit Type p : Poses F.
Local Open Scope js_scope.
Local Open Scope method_scope.

Lemma bind_fst_after {A B X} (f : Poses F -> X) (m : M F A) (k : A -> M F B) p :
  (forall a, preserves f (k a)) -> f (fst (bind m k p)) = f (fst (m p)).
Proof.
  intros Hk. unfold bind. destruct (m p) as [q [a|]]; cbn; [apply Hk|reflexivity].
Qed.

Lemma process_poseFields p r dt :
  poseFields (fst (process (Some r) dt p)) =
  poseFields (fst (preProcessPoseIfGiven dt (set_cloneableInputResults p (Some r)))).
Proof.
  unfold process, preProcessResults.
  rewrite bind_fst_after.
  - apply bind_fst_after. intros _.
    apply preProcessFaceIfGiven_frame; unfold poseFields; untouched.
  - intros _. apply preserves_bind.
    + apply calcFaceNormal_frame; unfold poseFields; untouched.
    + intros _. apply postPoseLandmarks_frame; unfold poseFields; untouched.
Qed.

Lemma calibrated_none (first : bool) (base : Vector3 F) :
  calibrated first base None = (base, first).
Proof. now destruct first. Qed.

(** The calibration fields after a [process] call. *)
Lemma process_calibration p results dt :
  let p' := fst (process results dt p) in
  (midHipBase p', firstResult p') = calibrated (firstResult p) (midHipBase p) (qualifies results).
Proof.
  cbv zeta. destruct results as [r|]; [|now rewrite calibrated_none].
  pose proof (f_equal (fun t => (snd (fst t), snd t)) (process_poseFields p r dt)) as E.
  unfold poseFields in E. cbn [fst snd] in E. rewrite E.
  unfold preProcessPoseIfGiven, qualifies. cbn [cloneableInputResults set_cloneableInputResults].
  destruct (ea r) as [l|]; [|now rewrite calibrated_none].
  exact (preProcessPose_calibration dt l (set_cloneableInputResults p (Some r))).
Qed.

(** The hip test raises or not according to [firstResult] and the list. *)
Lemma rememberInitialOffset_outcome l p q :
  firstResult p = firstResult q ->
  snd (rememberInitialOffset l p) = snd (rememberInitialOffset l q).
Proof.
  intros E. unfold rememberInitialOffset, bind, lift, modify, ret. rewrite E.
  destruct (firstResult q); [|reflexivity].
  destruct (entry l LEFT_HIP) as [a|]; [|reflexivity].
  destruct (visible a); [|reflexivity].
  destruct (entry l RIGHT_HIP) as [b|]; [|reflexivity].
  now destruct (visible b).
Qed.

(** A [process] call with a pose list whose hip test does not raise. *)
Lemma process_pose_transform p r dt l :
  ea r = Some l ->
  snd (rememberInitialOffset l p) = Normal tt ->
  let p' := fst (process (Some r) dt p) in
  let l' := map (transform (poseOffset p')) l in
  givenEa p' = Some l' /\
  poseLandmarks p' = fst (noiseFiltering dt l' (poseLandmarks p)) /\
  console p' = console (checkLength l p) /\
  (snd (process (Some r) dt p) = Normal tt -> inputPoseLandmarks p' = l') /\
  (snd (noiseFiltering dt l' (poseLandmarks p)) = TypeError ->
   snd (process (Some r) dt p) = TypeError).
Proof.
  intros He Hn. cbv zeta.
  set (p0 := set_cloneableInputResults p (Some r)).
  assert (Hn0 : snd (rememberInitialOffset l (checkLength l p0)) = Normal tt).
  { rewrite <- Hn. apply rememberInitialOffset_outcome.
    now destruct (checkLength_fields l p0) as (_ & _ & _ & -> & _). }
  destruct (preProcessPose_transform dt l p0 (r := r) eq_refl Hn0)
    as (H1 & H2 & H3 & H4 & H5).
  change (poseLandmarks p0) with (poseLandmarks p) in H2, H4.
  assert (Ep : preProcessPoseIfGiven dt p0 = preProcessPose dt l p0).
  { unfold preProcessPoseIfGiven. cbn. now rewrite He. }
  pose proof (process_poseFields p r dt) as E. fold p0 in E. rewrite Ep in E.
  unfold poseFields in E.
  pose proof (f_equal (fun t => fst (fst (fst (fst (fst t))))) E) as E1.
  pose proof (f_equal (fun t => snd (fst (fst (fst (fst t))))) E) as E2.
  pose proof (f_equal (fun t => snd (fst (fst (fst t)))) E) as E3.
  pose proof (f_equal (fun t => snd (fst (fst t))) E) as E4.
  pose proof (f_equal (fun t => snd (fst t)) E) as E5.
  cbn [fst snd] in E1, E2, E3, E4, E5. clear E.
  assert (Eo : poseOffset (fst (process (Some r) dt p))
               = poseOffset (fst (preProcessPose dt l p0))).
  { unfold poseOffset. now rewrite E5. }
  rewrite Eo, E1, E2, E4. repeat split; auto.
  - rewrite H3. unfold checkLength.
    destruct (Nat.eqb _ _); reflexivity.
  - intros Hs. rewrite E3. apply H5.
    unfold process, preProcessResults, bind in Hs. fold p0 in Hs. rewrite Ep in Hs.
    destruct (preProcessPose dt l p0) as [q1 [[]|]]; [reflexivity|discriminate].
  - intros Hs. rewrite <- H4 in Hs.
    unfold process, preProcessResults, bind. fold p0. rewrite Ep.
    destruct (preProcessPose dt l p0) as [q1 [[]|]]; [discriminate|reflexivity].
Qed.
End ProcessFacts.

Section CoordinateTransform.
Context {F : Type} {NF : Number F} {HF : HelperFilters F} {HOL : Holistic}.
Implicit Type p : Poses F.
Local Open Scope js_scope.
Local Open Scope method_scope.

(** The filtering loop, position by position. *)
Lemma noiseFiltering_nth dt (rs : NormalizedLandmarkList F) :
  forall (fs : FilteredVectorLandmarkList F) i f v,
    nth_error fs i = Some f -> nth_error rs i = Some v ->
    nth_error (fst (noiseFiltering dt rs fs)) i =
    Some (updatePosition f dt (normalizedLandmarkToVector v) (nl_visibility v)).
Proof.
  induction rs as [|r rs IH]; intros fs i f v Hf Hv.
  - now destruct i.
  - destruct fs as [|f0 fs]; [now destruct i|].
    cbn [noiseFiltering]. specialize (IH fs).
    destruct (noiseFiltering dt rs fs) as [fs' c]. cbn [fst] in *.
    destruct i as [|i]; cbn in *.
    + now injection Hf as ->; injection Hv as ->.
    + now apply IH.
Qed.

Lemma noiseFiltering_beyond dt (rs : NormalizedLandmarkList F) :
  forall (fs : FilteredVectorLandmarkList F) i,
    List.length rs <= i ->
    nth_error (fst (noiseFiltering dt rs fs)) i = nth_error fs i.
Proof.
  induction rs as [|r rs IH]; intros fs i Hi; [reflexivity|].
  destruct fs as [|f0 fs]; [reflexivity|].
  cbn [noiseFiltering]. specialize (IH fs).
  destruct (noiseFiltering dt rs fs) as [fs' c]. cbn [fst] in *.
  destruct i as [|i]; cbn in *; [lia|]. apply IH. lia.
Qed.

Lemma noiseFiltering_length dt (rs : NormalizedLandmarkList F) :
  forall fs : FilteredVectorLandmarkList F,
    List.length (fst (noiseFiltering dt rs fs)) = List.length fs.
Proof.
  induction rs as [|r rs IH]; intros fs; [reflexivity|].
  destruct fs as [|f0 fs]; [reflexivity|].
  cbn [noiseFiltering]. specialize (IH fs).
  destruct (noiseFiltering dt rs fs) as [fs' c]. cbn in *. now rewrite IH.
Qed.

(** The loop raises exactly when the input is longer than the filtered list. *)
Lemma noiseFiltering_outcome dt (rs : NormalizedLandmarkList F) :
  forall fs : FilteredVectorLandmarkList F,
    snd (noiseFiltering dt rs fs) =
    if Nat.ltb (List.length fs) (List.length rs) then TypeError else Normal tt.
Proof.
  induction rs as [|r rs IH]; intros fs; [reflexivity|].
  destruct fs as [|f0 fs]; [reflexivity|].
  cbn [noiseFiltering]. specialize (IH fs).
  destruct (noiseFiltering dt rs fs) as [fs' c]. cbn in *. exact IH.
Qed.

Lemma preProcessFace_transform dt l p r :
  cloneableInputResults p = Some r ->
  let q := fst (preProcessFace dt l p) in
  let l' := map (transform Zero) l in
  faceLandmarks q = fst (noiseFiltering dt l' (faceLandmarks p)) /\
  (snd (preProcessFace dt l p) = Normal tt -> inputFaceLandmarks q = l').
Proof.
  intros Hr. cbv zeta. unfold preProcessFace. rewrite preProcessLandmarks_eq.
  destruct (noiseFiltering dt (map (transform Zero) l) (faceLandmarks p)) as [fs' c].
  cbn [fst snd].
  destruct c as [[]|]; cbn; split; auto; discriminate.
Qed.

(** A [process] call that ends normally, with a face list. *)
Lemma process_face_transform p p' r dt l :
  process (Some r) dt p = (p', Normal tt) ->
  r_faceLandmarks r = Some l ->
  inputFaceLandmarks p' = map (transform Zero) l /\
  faceLandmarks p' = fst (noiseFiltering dt (map (transform Zero) l) (faceLandmarks p)).
Proof.
  intros H Hl. unfold process, preProcessResults in H.
  apply bind_normal in H as ([] & q2 & H & Ht).
  apply bind_normal in H as ([] & q1 & H1 & H2).
  set (p0 := set_cloneableInputResults p (Some r)) in *.
  pose proof (preProcessPoseIfGiven_frame
                (fun q => (givenFace q, faceLandmarks q)) dt) as E.
  specialize (E ltac:(untouched) ltac:(untouched) ltac:(untouched) ltac:(untouched)
                ltac:(untouched) ltac:(untouched) p0).
  rewrite H1 in E. cbn [fst] in E.
  change (givenFace p0) with (r_faceLandmarks r) in E. rewrite Hl in E.
  change (faceLandmarks p0) with (faceLandmarks p) in E.
  apply (f_equal fst) in E as Eg. apply (f_equal snd) in E as Ef. cbn [fst snd] in Eg, Ef.
  unfold givenFace in Eg.
  destruct (cloneableInputResults q1) as [r1|] eqn:Er; [|discriminate].
  unfold preProcessFaceIfGiven in H2. rewrite Er, Eg in H2.
  destruct (preProcessFace_transform dt l q1 Er) as [Ha Hb].
  rewrite H2 in Ha, Hb. cbn [fst snd] in Ha, Hb. specialize (Hb eq_refl).
  assert (Et : (inputFaceLandmarks p', faceLandmarks p')
               = (inputFaceLandmarks q2, faceLandmarks q2)).
  { change p' with (fst (p', @Normal unit tt)). rewrite <- Ht.
    apply (preserves_bind (f := fun q => (inputFaceLandmarks q, faceLandmarks q))).
    - apply calcFaceNormal_frame; untouched.
    - intros _. apply postPoseLandmarks_frame; untouched. }
  injection Et as -> ->. rewrite Hb, Ha, Ef. now split.
Qed.

Lemma process_normal_hip_test p p' r dt l :
  process (Some r) dt p = (p', Normal tt) -> ea r = Some l ->
  snd (rememberInitialOffset l p) = Normal tt.
Proof.
  intros H Hl. unfold process, preProcessResults in H.
  apply bind_normal in H as ([] & q2 & H & _).
  apply bind_normal in H as ([] & q1 & H1 & _).
  unfold preProcessPoseIfGiven in H1.
  cbn [cloneableInputResults set_cloneableInputResults] in H1. rewrite Hl in H1.
  rewrite preProcessPose_eq in H1.
  set (p0 := set_cloneableInputResults p (Some r)) in *.
  rewrite (rememberInitialOffset_outcome l p (checkLength l p0)).
  - destruct (rememberInitialOffset l (checkLength l p0)) as [p2 [[]|]];
      [reflexivity|discriminate].
  - now destruct (checkLength_fields l p0) as (_ & _ & _ & -> & _).
Qed.

End CoordinateTransform.

Section Sessions.
Context {F : Type} {NF : Number F} {HF : HelperFilters F} {HOL : Holistic}.
Implicit Type p : Poses F.
Local Open Scope js_scope.
Local Open Scope method_scope.

Lemma session_app p (fs gs : list (option (Results F) * F)) :
  session p (fs ++ gs) = session (session p fs) gs.
Proof.
  revert p. induction fs as [|[r dt] fs IH]; intros p; [reflexivity|]. apply IH.
Qed.

(** Frames that do not qualify leave an uncalibrated object uncalibrated. *)
Lemma session_not_qualifying p (frames : list (option (Results F) * F)) :
  Forall (fun fr => qualifies (fst fr) = None) frames ->
  midHipBase (session p frames) = midHipBase p /\
  firstResult (session p frames) = firstResult p.
Proof.
  intros H. revert p. induction H as [|[r dt] frames Hq _ IH]; intros p; [now split|].
  cbn [session]. destruct (IH (fst (process r dt p))) as [-> ->].
  pose proof (process_calibration p r dt) as E. cbv zeta in E.
  cbn [fst] in Hq. rewrite Hq, calibrated_none in E.
  now apply pair_eq_inv in E as [-> ->].
Qed.

(** Once calibrated, the offset stays whatever the frames are. *)
Lemma session_calibrated p (frames : list (option (Results F) * F)) :
  firstResult p = false ->
  midHipBase (session p frames) = midHipBase p /\
  firstResult (session p frames) = false.
Proof.
  revert p. induction frames as [|[r dt] frames IH]; intros p Hp; [now split|].
  cbn [session].
  pose proof (process_calibration p r dt) as E. cbv zeta in E.
  rewrite Hp in E. cbn [calibrated] in E. apply pair_eq_inv in E as [E1 E2].
  destruct (IH (fst (process r dt p)) E2) as [-> ->]. now split.
Qed.

(** C4.  Calibration happens once, on the first frame whose pose list has
    both hip landmarks with a confidence above the threshold: the frames
    before it leave the offset as it was, that frame records the midpoint of
    the two hips (its vertical coordinate is the mean of theirs), and after
    any further frames the offset is still that midpoint and is the one the
    pose list of the next frame is transformed with. *)
Theorem calibration_once (p : Poses F) (before : list (option (Results F) * F))
    (r : Results F) (dt : F) (lh rh : NormalizedLandmark F) :
  firstResult p = true ->
  Forall (fun fr => qualifies (fst fr) = None) before ->
  qualifies (Some r) = Some (lh, rh) ->
  let base := hipMidpoint lh rh in
  midHipBase (session p before) = midHipBase p /\
  firstResult (session p before) = true /\
  y base = (nl_y lh + nl_y rh) * ratio 1 2 /\
  forall after,
    let q := session p (before ++ (Some r, dt) :: after) in
    midHipBase q = base /\ firstResult q = false /\
    forall r' dt' l',
      ea r' = Some l' ->
      givenEa (fst (process (Some r') dt' q)) =
      Some (map (fun v => mkLandmark (nl_x v + fromZ 0) (- nl_y v + y base)
                                     (nl_z v + fromZ 0) (nl_visibility v)) l').
Proof.
  intros Hp Hb Hq. cbv zeta.
  destruct (session_not_qualifying p Hb) as [E1 E2]. rewrite Hp in E2.
  split; [exact E1|]. split; [exact E2|]. split; [reflexivity|].
  intros after. rewrite session_app. cbn [session].
  set (p1 := session p before) in *.
  pose proof (process_calibration p1 (Some r) dt) as E. cbv zeta in E.
  rewrite E2, Hq in E. cbn [calibrated] in E. apply pair_eq_inv in E as [E3 E4].
  destruct (session_calibrated (fst (process (Some r) dt p1)) after E4) as [E5 E6].
  rewrite E3 in E5. split; [exact E5|]. split; [exact E6|].
  intros r' dt' l' Hl.
  set (q := session (fst (process (Some r) dt p1)) after) in *.
  destruct (@process_pose_transform _ _ _ _ q r' dt' l' Hl
              (f_equal snd (rememberInitialOffset_done l' q E6))) as (H1 & _).
  rewrite H1. unfold poseOffset.
  pose proof (process_calibration q (Some r') dt') as E. cbv zeta in E.
  rewrite E6 in E. cbn [calibrated] in E. apply pair_eq_inv in E as [-> _].
  now rewrite E5.
Qed.

(** The pose block on a list too short to hold the left hip, before the
    calibration: the warning is printed, then the hip test raises. *)
Lemma preProcessPose_short dt l p :
  firstResult p = true -> List.length l <= LEFT_HIP ->
  preProcessPose dt l p = (checkLength l p, TypeError).
Proof.
  intros Hp Hl. rewrite preProcessPose_eq.
  unfold rememberInitialOffset, bind, lift, entry.
  destruct (checkLength_fields l p) as (_ & _ & _ & -> & _). rewrite Hp.
  now rewrite (proj2 (nth_error_None l LEFT_HIP) Hl).
Qed.

End Sessions.

(* ================================================================= *)
(** ** The worker on concrete frames *)

Example calibratedPoses_state :
  firstResult calibratedPoses = false /\
  midHipBase calibratedPoses = mkVector3 0.5%float 0.5%float 0%float /\
  List.length (poseLandmarks calibratedPoses) = 33 /\
  snd (process (Some standingFrame) dt60 startPoses) = Normal tt.
Proof. vm_compute. repeat split. Qed.

Lemma calibration_once_witness :
  midHipBase (session startPoses
                ([(Some hiddenFrame, dt60); (None, dt60)]
                 ++ (Some standingFrame, dt60) :: [(Some hiddenFrame, dt60)]))
  = hipMidpoint (landmark 5 5 0 10 (Some (ratio 9 10)))
                (landmark 5 5 0 10 (Some (ratio 9 10))).
Proof.
  assert (Hq : qualifies (Some standingFrame)
               = Some (landmark 5 5 0 10 (Some (ratio 9 10)),
                       landmark 5 5 0 10 (Some (ratio 9 10))))
    by (vm_compute; reflexivity).
  assert (Hb : Forall (fun fr : option (Results float) * float => qualifies (fst fr) = None)
                      [(Some hiddenFrame, dt60); (None, dt60)])
    by (repeat constructor).
  destruct (@calibration_once float _ _ _ startPoses
              [(Some hiddenFrame, dt60); (None, dt60)] standingFrame dt60
              _ _ eq_refl Hb Hq) as (_ & _ & _ & H).
  exact (proj1 (H [(Some hiddenFrame, dt60)])).
Defined.

(** C9 (counterexample).  The same one-element pose list is answered in two
    ways, and neither is a rejection or a skip: on the object as constructed
    the call ends with a TypeError; once the object is calibrated the call
    completes, prints the warning and updates the first filter. *)
Lemma process_short_list_two_behaviours :
  snd (process (Some shortFrame) dt60 startPoses) = TypeError /\
  snd (process (Some shortFrame) dt60 calibratedPoses) = Normal tt /\
  console (fst (process (Some shortFrame) dt60 calibratedPoses))
    = [PoseLandmarkLengthWarning 33] /\
  poseLandmarks (fst (process (Some shortFrame) dt60 calibratedPoses))
    <> poseLandmarks calibratedPoses.
Proof.
  split; [now vm_compute|]. split; [now vm_compute|]. split; [now vm_compute|].
  intros H.
  apply (f_equal (fun fs => match fs with f :: _ => _t f | [] => 0%float end)) in H.
  revert H. float_neq 1%float.
Qed.

(** C8 (the code at the failing input).  One frame with every face landmark
    at (0.5, 0.5, 0.25): the filtered landmark 276, the first index of the
    first sub-region, is at (0.5, -0.5, 0.25) and the point exported for it
    has z = 0.5, the x coordinate, not 0.25. *)
Theorem faceMeshLandmarkList_z_is_x :
  let p := fst (process (Some faceFrame) dt60 startPoses) in
  option_map (fun g => nth_error g 0) (nth_error (_faceMeshLandmarkIndexList p) 0)
    = Some (Some 276) /\
  option_map (@_pos float) (nth_error (faceLandmarks p) 276)
    = Some (mkVector3 0.5%float (-0.5)%float 0.25%float) /\
  option_map (fun g => nth_error g 0) (nth_error (_faceMeshLandmarkList p) 0)
    = Some (Some (mkLandmark 0.5%float (-0.5)%float 0.5%float None)) /\
  0.5%float <> 0.25%float.
Proof.
  cbv zeta. split; [now vm_compute|]. split; [now vm_compute|]. split; [now vm_compute|].
  float_neq 0.5%float.
Qed.

Section FaceMesh.
Context {F : Type} {NF : Number F} {HOL : Holistic}.

(** Every exported point has the x coordinate of the filtered landmark as its
    z, whatever the connection tables are. *)
Lemma meshPoints_nth (fl : FilteredVectorLandmarkList F) (idxArr : list nat) :
  forall arr j i l,
    meshPoints fl idxArr = Normal arr ->
    nth_error idxArr j = Some i -> nth_error fl i = Some l ->
    nth_error arr j =
    Some (mkLandmark (x (_pos l)) (y (_pos l)) (x (_pos l)) (visibility l)).
Proof.
  induction idxArr as [|i0 rest IH]; intros arr j i l H Hj Hl.
  - now destruct j.
  - cbn [meshPoints] in H.
    destruct (nth_error fl i0) as [l0|] eqn:E0; [|discriminate].
    destruct (meshPoints fl rest) as [arr0|]; [|discriminate].
    injection H as <-. destruct j as [|j]; cbn in *.
    + injection Hj as ->. rewrite Hl in E0. now injection E0 as ->.
    + now apply (IH arr0 j i l).
Qed.
End FaceMesh.

(* ================================================================= *)
(** ** The face normal *)


(* ================================================================= *)
(** ** The time increment and the filter parameters *)

Section LandmarkModes.
Context {F : Type} {NF : Number F} {HF : HelperFilters F}.

Lemma updatePosition_mode (l : FilteredVectorLandmark F) dt p vis :
  _tIncrementMode (updatePosition l dt p vis) = _tIncrementMode l.
Proof.
  unfold updatePosition, advance.
  destruct (_tIncrementMode l) eqn:E; destruct (accepted vis); cbn;
    try destruct (next _ _ _); cbn; auto.
Qed.

(** In the Universal mode the argument [dt] of [updatePosition] is not used. *)
Lemma updatePosition_universal_dt (l : FilteredVectorLandmark F) dt dt' p vis :
  _tIncrementMode l = Universal ->
  updatePosition l dt p vis = updatePosition l dt' p vis.
Proof. intros H. unfold updatePosition, advance. now rewrite H. Qed.

Lemma set_filter_same (l : FilteredVectorLandmark F) :
  set_filter l (oneEuroVectorFilter l) = l.
Proof. now destruct l. Qed.

(** X8.  [updateFilterParameters] without the first two arguments changes
    nothing, its third argument is never used, and a second call with the
    same arguments changes nothing more. *)
Theorem updateFilterParameters_idempotent (l : FilteredVectorLandmark F)
    (c b d d' : option F) :
  updateFilterParameters l None None d = l /\
  updateFilterParameters l c b d = updateFilterParameters l c b d' /\
  updateFilterParameters (updateFilterParameters l c b d) c b d'
  = updateFilterParameters l c b d.
Proof.
  split; [apply set_filter_same|]. split; [reflexivity|].
  unfold updateFilterParameters.
  destruct c as [c|], b as [b|];
    try destruct (truthy c); try destruct (truthy b); destruct l; reflexivity.
Qed.
End LandmarkModes.

(* ================================================================= *)
(** ** What every [process] call keeps *)

Section ObjectInvariants.
Context {F : Type} {NF : Number F} {HF : HelperFilters F} {HOL : Holistic}.
Implicit Type p : Poses F.
Local Open Scope method_scope.

Lemma noiseFiltering_modes dt (rs : NormalizedLandmarkList F) :
  forall fs : FilteredVectorLandmarkList F,
    map (@_tIncrementMode F) (fst (noiseFiltering dt rs fs)) = map (@_tIncrementMode F) fs.
Proof.
  induction rs as [|r rs IH]; intros fs; [reflexivity|].
  destruct fs as [|f fs]; [reflexivity|].
  cbn [noiseFiltering]. specialize (IH fs).
  destruct (noiseFiltering dt rs fs) as [fs' c]. cbn in *.
  now rewrite IH, updatePosition_mode.
Qed.

Lemma noiseFiltering_universal_dt dt dt' (rs : NormalizedLandmarkList F) :
  forall fs : FilteredVectorLandmarkList F,
    Forall (fun l => _tIncrementMode l = Universal) fs ->
    noiseFiltering dt rs fs = noiseFiltering dt' rs fs.
Proof.
  induction rs as [|r rs IH]; intros fs H; [reflexivity|].
  destruct H as [|f fs Hf Hfs]; [reflexivity|].
  cbn [noiseFiltering]. rewrite (IH fs Hfs).
  now rewrite (updatePosition_universal_dt f dt dt' _ _ Hf).
Qed.

Lemma copyPoseLandmarks_length (cs : NormalizedLandmarkList F) :
  forall fs : FilteredVectorLandmarkList F,
    List.length (fst (copyPoseLandmarks cs fs)) = List.length cs.
Proof.
  induction cs as [|c cs IH]; intros fs; [reflexivity|].
  destruct fs as [|f fs]; [reflexivity|].
  cbn [copyPoseLandmarks]. specialize (IH fs).
  destruct (copyPoseLandmarks cs fs) as [cs' k]. cbn in *. now rewrite IH.
Qed.

Lemma filterPoseLandmarks_modes dt l : preserves modes (filterPoseLandmarks dt l).
Proof.
  intros p. unfold filterPoseLandmarks. rewrite preProcessLandmarks_eq.
  pose proof (noiseFiltering_modes dt
                (map (transform (mkVector3 (fromZ 0) (y (midHipBase p)) (fromZ 0))) l)
                (poseLandmarks p)) as E.
  destruct (noiseFiltering dt _ (poseLandmarks p)) as [fs' c]. cbn [fst snd] in *.
  destruct c; unfold modes, set_ea; destruct (cloneableInputResults p); cbn;
    now rewrite E.
Qed.

Lemma preProcessPose_modes dt l : preserves modes (preProcessPose dt l).
Proof.
  unfold preProcessPose.
  apply preserves_bind.
  { apply preserves_modify. intros p. unfold checkLength.
    now destruct (Nat.eqb _ _). }
  intros _. apply preserves_bind.
  { apply rememberInitialOffset_frame; reflexivity. }
  intros _. apply filterPoseLandmarks_modes.
Qed.

Lemma preProcessFace_modes dt l : preserves modes (preProcessFace dt l).
Proof.
  intros p. unfold preProcessFace. rewrite preProcessLandmarks_eq.
  pose proof (noiseFiltering_modes dt (map (transform Zero) l) (faceLandmarks p)) as E.
  destruct (noiseFiltering dt _ (faceLandmarks p)) as [fs' c]. cbn [fst snd] in *.
  destruct c; unfold modes, set_r_faceLandmarks; destruct (cloneableInputResults p); cbn;
    now rewrite E.
Qed.

(** The modes and the lengths of the filtered lists, and the length of the
    exported pose list, are the same after a [process] call, however it
    ends. *)
Lemma process_modes p results dt : modes (fst (process results dt p)) = modes p.
Proof.
  destruct results as [r|]; [|reflexivity].
  unfold process, preProcessResults.
  set (p0 := set_cloneableInputResults p (Some r)).
  change (modes p) with (modes p0).
  apply bind_fst.
  - apply bind_fst.
    + unfold preProcessPoseIfGiven. destruct (cloneableInputResults p0) as [r0|]; [|reflexivity].
      destruct (ea r0); [apply preProcessPose_modes|reflexivity].
    + intros _ q <-. unfold preProcessFaceIfGiven.
      destruct (cloneableInputResults q) as [r0|]; [|reflexivity].
      destruct (r_faceLandmarks r0); [apply preProcessFace_modes|reflexivity].
  - intros _ q <-. apply bind_fst.
    + apply calcFaceNormal_frame; reflexivity.
    + intros _ q' <-. unfold postPoseLandmarks.
      pose proof (copyPoseLandmarks_length (cloneablePoseLandmarks q') (poseLandmarks q')) as E.
      destruct (copyPoseLandmarks _ _) as [cs c]. unfold modes. cbn in *. now rewrite E.
Qed.

Lemma session_modes p (frames : list (option (Results F) * F)) :
  modes (session p frames) = modes p.
Proof.
  revert p. induction frames as [|[r dt] frames IH]; intros p; [reflexivity|].
  cbn [session]. now rewrite IH, process_modes.
Qed.

Lemma modes_shaped p (q : Poses F) : modes p = modes q -> shaped q -> shaped p.
Proof.
  unfold modes, shaped. intros E (H1 & H2 & H3).
  apply pair_eq_inv in E as [E E3]. apply pair_eq_inv in E as [E1 E2].
  apply (f_equal (@List.length _)) in E1, E2. rewrite !length_map in E1, E2.
  now rewrite E1, E2, E3.
Qed.

Lemma modes_universal p (q : Poses F) :
  modes p = modes q -> universalPoses q -> universalPoses p.
Proof.
  unfold modes, universalPoses. intros E [H1 H2].
  apply pair_eq_inv in E as [E _]. apply pair_eq_inv in E as [E1 E2].
  assert (A : forall fs gs : FilteredVectorLandmarkList F,
             map (@_tIncrementMode F) fs = map (@_tIncrementMode F) gs ->
             Forall (fun l => _tIncrementMode l = Universal) gs ->
             Forall (fun l => _tIncrementMode l = Universal) fs).
  { induction fs as [|f fs IH]; intros gs Em Hg; [constructor|].
    destruct gs as [|g gs]; [discriminate|]. inversion Hg; subst.
    cbn in Em. injection Em as Em1 Em2. constructor; [congruence|now apply (IH gs)]. }
  split; [now apply (A _ _ E1)|now apply (A _ _ E2)].
Qed.

Lemma new_Poses_shaped : shaped (@new_Poses F _ _).
Proof. unfold shaped, new_Poses, initArray. cbn. now rewrite !repeat_length. Qed.

Lemma new_Poses_universal : universalPoses (@new_Poses F _ _).
Proof.
  unfold universalPoses, new_Poses, initArray. cbn.
  split; apply Forall_forall; intros l Hl; apply repeat_spec in Hl; now subst.
Qed.

(** X3.  The lengths of the two filtered lists and of the exported pose list
    never change: after any session on [new Poses()], whatever the frames are
    and however the calls end, they are the lengths the object was built
    with. *)
Theorem session_keeps_lengths (frames : list (option (Results F) * F)) :
  let p := session new_Poses frames in
  List.length (poseLandmarks p) = POSE_LANDMARK_LENGTH /\
  List.length (faceLandmarks p) = FACE_LANDMARK_LENGTH /\
  List.length (cloneablePoseLandmarks p) = POSE_LANDMARK_LENGTH.
Proof.
  cbv zeta. apply (modes_shaped (q := new_Poses)); [apply session_modes|].
  apply new_Poses_shaped.
Qed.

Lemma filterPoseLandmarks_dt dt dt' l p :
  Forall (fun l => _tIncrementMode l = Universal) (poseLandmarks p) ->
  filterPoseLandmarks dt l p = filterPoseLandmarks dt' l p.
Proof.
  intros H. unfold filterPoseLandmarks. rewrite !preProcessLandmarks_eq.
  now rewrite (noiseFiltering_universal_dt dt dt' _ H).
Qed.

Lemma preProcessFace_dt dt dt' l p :
  Forall (fun l => _tIncrementMode l = Universal) (faceLandmarks p) ->
  preProcessFace dt l p = preProcessFace dt' l p.
Proof.
  intros H. unfold preProcessFace. rewrite !preProcessLandmarks_eq.
  now rewrite (noiseFiltering_universal_dt dt dt' _ H).
Qed.

Lemma bind_cong {A B} (m m' : M F A) (k : A -> M F B) p :
  m p = m' p -> bind m k p = bind m' k p.
Proof. intros E. unfold bind. now rewrite E. Qed.

(** With every landmark in the Universal mode a [process] call does not
    depend on [dt]. *)
Lemma process_universal_dt p results dt dt' :
  universalPoses p -> process results dt p = process results dt' p.
Proof.
  intros [Hp Hf]. destruct results as [r|]; [|reflexivity].
  unfold process.
  set (p0 := set_cloneableInputResults p (Some r)).
  assert (E1 : preProcessPoseIfGiven dt p0 = preProcessPoseIfGiven dt' p0).
  { unfold preProcessPoseIfGiven. destruct (cloneableInputResults p0) as [r0|]; [|reflexivity].
    destruct (ea r0) as [l|]; [|reflexivity].
    rewrite !preProcessPose_eq.
    pose proof (rememberInitialOffset_frame (fun q => poseLandmarks q) l
                  (fun _ _ => eq_refl) (fun _ _ => eq_refl) (checkLength l p0)) as E.
    destruct (rememberInitialOffset l (checkLength l p0)) as [p2 [[]|]]; [|reflexivity].
    apply filterPoseLandmarks_dt. cbn [fst] in E. rewrite E.
    unfold checkLength. now destruct (Nat.eqb _ _). }
  assert (E2 : forall q, faceLandmarks q = faceLandmarks p ->
                         preProcessFaceIfGiven dt q = preProcessFaceIfGiven dt' q).
  { intros q Eq. unfold preProcessFaceIfGiven.
    destruct (cloneableInputResults q) as [r0|]; [|reflexivity].
    destruct (r_faceLandmarks r0) as [l|]; [|reflexivity].
    apply preProcessFace_dt. now rewrite Eq. }
  assert (E : preProcessResults dt p0 = preProcessResults dt' p0).
  { unfold preProcessResults, bind. rewrite E1.
    pose proof (preProcessPoseIfGiven_frame (fun q => faceLandmarks q) dt'
                  ltac:(untouched) ltac:(untouched) ltac:(untouched) ltac:(untouched)
                  ltac:(untouched) ltac:(untouched) p0) as Ef.
    destruct (preProcessPoseIfGiven dt' p0) as [q [[]|]]; [|reflexivity].
    cbn [fst] in Ef. now apply E2. }
  apply bind_cong. exact E.
Qed.

Lemma session_universal_dt p (frames : list (option (Results F) * F)) :
  forall frames' : list (option (Results F) * F),
    universalPoses p -> map fst frames = map fst frames' ->
    session p frames = session p frames'.
Proof.
  revert p. induction frames as [|[r dt] frames IH]; intros p [|[r' dt'] frames'] Hu E;
    try discriminate; [reflexivity|].
  cbn in E. injection E as -> E. cbn [session].
  rewrite (@process_universal_dt p r' dt dt' Hu).
  apply IH; [|exact E].
  apply (modes_universal (q := p)); [apply process_modes|exact Hu].
Qed.

(** X2.  The worker ignores the measured frame time: two sessions on
    [new Poses()] that receive the same results, with any values of [dt],
    leave the object in the same state. *)
Theorem session_ignores_dt (frames frames' : list (option (Results F) * F)) :
  map fst frames = map fst frames' ->
  session new_Poses frames = session new_Poses frames'.
Proof. apply session_universal_dt, new_Poses_universal. Qed.
End ObjectInvariants.

Lemma session_ignores_dt_witness :
  session startPoses [(Some standingFrame, dt60); (Some shortFrame, ratio 1 30)]
  = session startPoses [(Some standingFrame, ratio 5 1); (Some shortFrame, fromZ 0)].
Proof.
  apply (@session_ignores_dt float _ _ _
           [(Some standingFrame, dt60); (Some shortFrame, ratio 1 30)]
           [(Some standingFrame, ratio 5 1); (Some shortFrame, fromZ 0)]).
  reflexivity.
Defined.

(* ================================================================= *)
(** ** The face-mesh export and the key points *)

Section FaceMeshExport.
Context {F : Type} {NF : Number F} {HF : HelperFilters F} {HOL : Holistic}.
Implicit Type p : Poses F.
Local Open Scope method_scope.

Lemma setAdd_In (idx : list nat) (v w : nat) :
  In w (setAdd idx v) <-> In w idx \/ w = v.
Proof.
  unfold setAdd. destruct (existsb (Nat.eqb v) idx) eqn:E.
  - split; [now left|]. intros [H| ->]; [exact H|].
    apply existsb_exists in E as (u & Hu & Eu). apply Nat.eqb_eq in Eu. now subst.
  - rewrite in_app_iff. cbn. intuition.
Qed.

Lemma setAdd_NoDup (idx : list nat) (v : nat) : NoDup idx -> NoDup (setAdd idx v).
Proof.
  intros H. unfold setAdd. destruct (existsb (Nat.eqb v) idx) eqn:E; [exact H|].
  apply NoDup_app; [exact H|repeat constructor; intros []|].
  intros u Hu [Ev|[]].
  assert (X : existsb (Nat.eqb v) idx = true).
  { apply existsb_exists. exists u. split; [exact Hu|]. subst. apply Nat.eqb_refl. }
  congruence.
Qed.

Lemma idxArrOf_from (connections : list (nat * nat)) :
  forall idx : list nat,
    NoDup idx ->
    let r := fold_left (fun idx v => setAdd (setAdd idx (fst v)) (snd v)) connections idx in
    NoDup r /\
    forall w, In w r <-> In w idx \/ exists c, In c connections /\ (w = fst c \/ w = snd c).
Proof.
  induction connections as [|c cs IH]; intros idx H; cbn.
  - split; [exact H|]. intros w. split; [now left|]. now intros [|(c & [] & _)].
  - destruct (IH (setAdd (setAdd idx (fst c)) (snd c))) as [H1 H2].
    { now apply setAdd_NoDup, setAdd_NoDup. }
    split; [exact H1|]. intros w. rewrite H2, !setAdd_In. split.
    + intros [[[Hw|Hw]|Hw]|(c' & Hc & Hw)].
      * now left.
      * right. exists c. split; [now left|now left].
      * right. exists c. split; [now left|now right].
      * right. exists c'. split; [now right|exact Hw].
    + intros [Hw|(c' & [Ec|Hc] & Hw)].
      * left. left. now left.
      * subst c'. destruct Hw as [Hw|Hw]; [left; left; now right|left; now right].
      * right. exists c'. now split.
Qed.

(** X7.  The index array of a sub-region holds every end of every connection
    of the table, each one once. *)
Theorem idxArrOf_set (connections : list (nat * nat)) :
  NoDup (idxArrOf connections) /\
  forall w, In w (idxArrOf connections) <->
            exists c, In c connections /\ (w = fst c \/ w = snd c).
Proof.
  destruct (idxArrOf_from connections (idx := []) (NoDup_nil _)) as [H1 H2].
  split; [exact H1|]. intros w. unfold idxArrOf. rewrite H2.
  split; [now intros [[]|]|now right].
Qed.

(** The points of a sub-region can be read when its indices are inside the
    filtered list; there is one point per index. *)
Lemma meshPoints_total (fl : FilteredVectorLandmarkList F) (idxArr : list nat) :
  Forall (fun i => i < List.length fl) idxArr ->
  exists arr, meshPoints fl idxArr = Normal arr /\ List.length arr = List.length idxArr.
Proof.
  induction 1 as [|i rest Hi _ (arr & E & El)]; [now exists []|].
  cbn [meshPoints]. apply nth_error_Some in Hi.
  destruct (nth_error fl i) as [l|]; [|contradiction].
  rewrite E. exists (meshPoint l :: arr). cbn. now rewrite El.
Qed.

Lemma set_mesh_same p :
  set_faceMeshLandmarkList
    (set_faceMeshLandmarkIndexList p (_faceMeshLandmarkIndexList p))
    (_faceMeshLandmarkList p) = p.
Proof. now destruct p. Qed.

(** The loop over the tables appends the index arrays and, for each of them,
    its points. *)
Lemma unpackFaceMesh_ok (connections : list (list (nat * nat))) :
  forall p,
    Forall (Forall (fun i => i < List.length (faceLandmarks p))) (map idxArrOf connections) ->
    exists arrs,
      Forall2 (fun idxArr arr => meshPoints (faceLandmarks p) idxArr = Normal arr)
              (map idxArrOf connections) arrs /\
      unpackFaceMesh connections p =
      (set_faceMeshLandmarkList
         (set_faceMeshLandmarkIndexList p
            (_faceMeshLandmarkIndexList p ++ map idxArrOf connections))
         (_faceMeshLandmarkList p ++ arrs), Normal tt).
Proof.
  induction connections as [|c cs IH]; intros p H.
  - exists []. split; [constructor|]. cbn. now rewrite !app_nil_r, set_mesh_same.
  - cbn [map] in H. inversion H as [|? ? Hc Hcs]; subst.
    destruct (@meshPoints_total (faceLandmarks p) (idxArrOf c) Hc) as (arr & Ea & _).
    set (p1 := set_faceMeshLandmarkList
                 (set_faceMeshLandmarkIndexList p
                    (_faceMeshLandmarkIndexList p ++ [idxArrOf c]))
                 (_faceMeshLandmarkList p ++ [arr])).
    destruct (IH p1 Hcs) as (arrs & Hf & E).
    exists (arr :: arrs). split; [constructor; assumption|].
    transitivity (unpackFaceMesh cs p1).
    { cbn [unpackFaceMesh map]. unfold bind, modify, lift.
      cbn [faceLandmarks set_faceMeshLandmarkIndexList]. now rewrite Ea. }
    rewrite E. unfold p1. cbn. now rewrite <- !app_assoc.
Qed.
End FaceMeshExport.

Section FaceNormalSteps.
Context {F : Type} {NF : Number F} {HF : HelperFilters F} {HOL : Holistic}.
Implicit Type p : Poses F.
Local Open Scope method_scope.

(** The loop over the tables, when it completes. *)
Lemma unpackFaceMesh_normal (connections : list (list (nat * nat))) :
  forall p q,
    unpackFaceMesh connections p = (q, Normal tt) ->
    exists arrs,
      Forall2 (fun idxArr arr => meshPoints (faceLandmarks p) idxArr = Normal arr)
              (map idxArrOf connections) arrs /\
      q = set_faceMeshLandmarkList
            (set_faceMeshLandmarkIndexList p
               (_faceMeshLandmarkIndexList p ++ map idxArrOf connections))
            (_faceMeshLandmarkList p ++ arrs).
Proof.
  induction connections as [|c cs IH]; intros p q H.
  - injection H as <-. exists []. split; [constructor|].
    cbn. now rewrite !app_nil_r, set_mesh_same.
  - cbn [unpackFaceMesh] in H. unfold bind at 1 2, modify at 1, lift in H.
    cbn [faceLandmarks set_faceMeshLandmarkIndexList] in H.
    destruct (meshPoints (faceLandmarks p) (idxArrOf c)) as [arr|] eqn:Ea; [|discriminate].
    unfold bind at 1, modify at 1 in H.
    apply IH in H as (arrs & Hf & ->). cbn [faceLandmarks] in Hf.
    exists (arr :: arrs). split; [constructor; assumption|].
    cbn. now rewrite <- !app_assoc.
Qed.

Lemma meshIndexLists_groups :
  nth_error meshIndexLists 2 = Some (idxArrOf FACEMESH_LEFT_EYE) /\
  nth_error meshIndexLists 3 = Some (idxArrOf FACEMESH_RIGHT_EYE) /\
  nth_error meshIndexLists 6 = Some (idxArrOf FACEMESH_LIPS).
Proof. now repeat split. Qed.

(** With a face list in the results the key points are read from the face
    set, through the index arrays that were just rebuilt. *)
Lemma keyPoints_dense p p1 l k :
  givenFace p = Some l -> keyPoints p = (p1, Normal k) ->
  exists arrs,
    Forall2 (fun idxArr arr => meshPoints (faceLandmarks p) idxArr = Normal arr)
            meshIndexLists arrs /\
    p1 = set_faceMeshLandmarkList (set_faceMeshLandmarkIndexList p meshIndexLists) arrs /\
    k = Some (meshKey (faceLandmarks p) 2 8, meshKey (faceLandmarks p) 3 8,
              meshKey (faceLandmarks p) 6 10, meshKey (faceLandmarks p) 6 0).
Proof.
  intros Hg H. unfold keyPoints in H. unfold givenFace in Hg.
  destruct (cloneableInputResults p) as [r|]; [|discriminate]. rewrite Hg in H.
  cbn [negb] in H.
  apply bind_normal in H as ([] & q0 & H0 & H). injection H0 as <-.
  apply bind_normal in H as ([] & q1 & H1 & H).
  apply unpackFaceMesh_normal in H1 as (arrs & Hf & ->).
  cbn [faceLandmarks _faceMeshLandmarkIndexList _faceMeshLandmarkList
       set_faceMeshLandmarkIndexList set_faceMeshLandmarkList app] in *.
  exists arrs. split; [exact Hf|].
  unfold bind, meshLandmark, ret in H. cbn in H. injection H as <- <-.
  split; reflexivity.
Qed.

Lemma keyPoints_pose p l :
  givenFace p = None -> givenPose p = Some l ->
  keyPoints p =
  (p, Normal (Some (nth_error (poseLandmarks p) LEFT_EYE_INNER,
                    nth_error (poseLandmarks p) RIGHT_EYE_INNER,
                    nth_error (poseLandmarks p) LEFT_RIGHT,
                    nth_error (poseLandmarks p) RIGHT_LEFT))).
Proof.
  unfold givenFace, givenPose, keyPoints.
  destruct (cloneableInputResults p) as [r|]; [|discriminate].
  now intros -> ->.
Qed.

Lemma keyPoints_none p p1 :
  keyPoints p = (p1, Normal None) -> givenFace p = None /\ givenPose p = None.
Proof.
  intros H. destruct (givenFace p) as [l|] eqn:Ef.
  - now destruct (keyPoints_dense p Ef H) as (_ & _ & _ & ?).
  - split; [reflexivity|]. destruct (givenPose p) as [l|] eqn:Ep; [|reflexivity].
    rewrite (keyPoints_pose p Ef Ep) in H. discriminate.
Qed.

Lemma calculateNormals_normal k p q :
  calculateNormals k p = (q, Normal tt) ->
  exists n, q = set_faceNormals p [n].
Proof.
  destruct k as [[[lei rei] ml] mr]. unfold calculateNormals, bind, modify, lift.
  destruct (sumNormals _ _) as [s|]; [|discriminate].
  intros H. injection H as <-. now eexists.
Qed.

(** When the face normal was computed, exactly one normal is exported. *)
Lemma calcFaceNormal_one_normal p q :
  calcFaceNormal p = (q, Normal tt) ->
  givenFace p <> None \/ givenPose p <> None ->
  exists n, _faceNormals q = [n].
Proof.
  intros H Hg. unfold calcFaceNormal in H.
  apply bind_normal in H as (k & p1 & Hk & H).
  destruct k as [k|].
  - apply calculateNormals_normal in H as (n & ->). now exists n.
  - apply keyPoints_none in Hk as [E1 E2]. now destruct Hg.
Qed.

Lemma constantsOk_spec :
  constantsOk = true ->
  (LEFT_HIP < POSE_LANDMARK_LENGTH /\ RIGHT_HIP < POSE_LANDMARK_LENGTH) /\
  (LEFT_EYE_INNER < POSE_LANDMARK_LENGTH /\ RIGHT_EYE_INNER < POSE_LANDMARK_LENGTH /\
   LEFT_RIGHT < POSE_LANDMARK_LENGTH /\ RIGHT_LEFT < POSE_LANDMARK_LENGTH) /\
  Forall (Forall (fun i => i < FACE_LANDMARK_LENGTH)) meshIndexLists /\
  8 < List.length (idxArrOf FACEMESH_LEFT_EYE) /\
  8 < List.length (idxArrOf FACEMESH_RIGHT_EYE) /\
  10 < List.length (idxArrOf FACEMESH_LIPS).
Proof.
  unfold constantsOk. rewrite !andb_true_iff, !Nat.ltb_lt.
  intros (((((((((H1 & H2) & H3) & H4) & H5) & H6) & H7) & H8) & H9) & H10).
  repeat split; try assumption.
  apply Forall_forall. intros idx Hi. apply Forall_forall. intros i Hj.
  rewrite forallb_forall in H7. specialize (H7 idx Hi).
  rewrite forallb_forall in H7. now apply Nat.ltb_lt, H7.
Qed.

Lemma meshKey_some (fl : FilteredVectorLandmarkList F) g j idxArr :
  nth_error meshIndexLists g = Some idxArr -> j < List.length idxArr ->
  Forall (Forall (fun i => i < List.length fl)) meshIndexLists ->
  exists l, meshKey fl g j = Some l.
Proof.
  intros Hg Hj Hf. unfold meshKey. rewrite Hg.
  destruct (nth_error idxArr j) as [i|] eqn:Ei.
  - rewrite Forall_forall in Hf. specialize (Hf idxArr (nth_error_In _ _ Hg)).
    rewrite Forall_forall in Hf. specialize (Hf i (nth_error_In _ _ Ei)).
    apply nth_error_Some in Hf. destruct (nth_error fl i) as [l|]; [now exists l|contradiction].
  - apply nth_error_None in Ei. lia.
Qed.

Lemma calculateNormals_total (a b c d : FilteredVectorLandmark F) p :
  snd (calculateNormals (Some a, Some b, Some c, Some d) p) = Normal tt.
Proof. reflexivity. Qed.

(** The face normal is computed without an exception on an object whose two
    filtered lists have the lengths the constants fit. *)
Lemma calcFaceNormal_completes p :
  constantsOk = true ->
  List.length (poseLandmarks p) = POSE_LANDMARK_LENGTH ->
  List.length (faceLandmarks p) = FACE_LANDMARK_LENGTH ->
  snd (calcFaceNormal p) = Normal tt.
Proof.
  intros Hc Hp Hf.
  destruct (constantsOk_spec Hc) as (_ & (K1 & K2 & K3 & K4) & Hm & M1 & M2 & M3).
  destruct meshIndexLists_groups as (G2 & G3 & G6).
  rewrite <- Hp in K1, K2, K3, K4. rewrite <- Hf in Hm.
  destruct (givenFace p) as [l|] eqn:Ef.
  - unfold calcFaceNormal, bind.
    destruct (keyPoints p) as [p1 [k|]] eqn:Ek.
    + destruct (keyPoints_dense p Ef Ek) as (arrs & _ & _ & ->).
      destruct (@meshKey_some (faceLandmarks p) 2 8 _ G2 M1 Hm) as (a & ->).
      destruct (@meshKey_some (faceLandmarks p) 3 8 _ G3 M2 Hm) as (b & ->).
      destruct (@meshKey_some (faceLandmarks p) 6 10 _ G6 M3 Hm) as (c & ->).
      destruct (@meshKey_some (faceLandmarks p) 6 0 _ G6 ltac:(lia) Hm) as (d & ->).
      apply calculateNormals_total.
    + exfalso. unfold keyPoints in Ek. unfold givenFace in Ef.
      destruct (cloneableInputResults p) as [r|]; [|discriminate]. rewrite Ef in Ek.
      cbn [negb] in Ek. unfold bind at 1, modify at 1 in Ek.
      destruct (unpackFaceMesh_ok faceMeshConnections
                  (set_faceMeshLandmarkList (set_faceMeshLandmarkIndexList p []) []) Hm)
        as (arrs & _ & E).
      unfold bind at 1 in Ek. rewrite E in Ek.
      unfold bind, meshLandmark, ret in Ek. cbn in Ek. discriminate.
  - destruct (givenPose p) as [l|] eqn:Eg.
    + unfold calcFaceNormal, bind. rewrite (keyPoints_pose p Ef Eg).
      apply nth_error_Some in K1, K2, K3, K4.
      destruct (nth_error (poseLandmarks p) LEFT_EYE_INNER); [|contradiction].
      destruct (nth_error (poseLandmarks p) RIGHT_EYE_INNER); [|contradiction].
      destruct (nth_error (poseLandmarks p) LEFT_RIGHT); [|contradiction].
      destruct (nth_error (poseLandmarks p) RIGHT_LEFT); [|contradiction].
      apply calculateNormals_total.
    + now rewrite calcFaceNormal_no_input.
Qed.
End FaceNormalSteps.

Section ProcessCompletes.
Context {F : Type} {NF : Number F} {HF : HelperFilters F} {HOL : Holistic}.
Implicit Type p : Poses F.
Local Open Scope method_scope.

Lemma wellFormedFrame_spec (r : Results F) :
  wellFormedFrame r = true ->
  (forall l, ea r = Some l -> List.length l = POSE_LANDMARK_LENGTH) /\
  (forall l, r_faceLandmarks r = Some l -> List.length l = FACE_LANDMARK_LENGTH).
Proof.
  unfold wellFormedFrame. rewrite andb_true_iff. intros [H1 H2]. split; intros l E.
  - rewrite E in H1. now apply Nat.eqb_eq.
  - rewrite E in H2. now apply Nat.eqb_eq.
Qed.

Lemma seq_completes {A} (m : M F unit) (k : unit -> M F A) p b :
  snd (m p) = Normal tt -> snd (k tt (fst (m p))) = Normal b ->
  snd (bind m k p) = Normal b.
Proof.
  unfold bind. destruct (m p) as [q [[]|]]; cbn; [now intros _|discriminate].
Qed.

Lemma preProcessPoseIfGiven_modes dt : preserves modes (preProcessPoseIfGiven dt).
Proof.
  intros p. unfold preProcessPoseIfGiven.
  destruct (cloneableInputResults p) as [r|]; [|reflexivity].
  destruct (ea r); [apply preProcessPose_modes|reflexivity].
Qed.

Lemma preProcessFaceIfGiven_modes dt : preserves modes (preProcessFaceIfGiven dt).
Proof.
  intros p. unfold preProcessFaceIfGiven.
  destruct (cloneableInputResults p) as [r|]; [|reflexivity].
  destruct (r_faceLandmarks r); [apply preProcessFace_modes|reflexivity].
Qed.

Lemma calcFaceNormal_modes : preserves modes calcFaceNormal.
Proof. apply calcFaceNormal_frame; reflexivity. Qed.

Lemma modes_lengths p (q : Poses F) :
  modes p = modes q ->
  List.length (poseLandmarks p) = List.length (poseLandmarks q) /\
  List.length (faceLandmarks p) = List.length (faceLandmarks q) /\
  List.length (cloneablePoseLandmarks p) = List.length (cloneablePoseLandmarks q).
Proof.
  unfold modes. intros E.
  apply pair_eq_inv in E as [E E3]. apply pair_eq_inv in E as [E1 E2].
  apply (f_equal (@List.length _)) in E1, E2. rewrite !length_map in E1, E2.
  now repeat split.
Qed.

Lemma rememberInitialOffset_completes (l : NormalizedLandmarkList F) p :
  LEFT_HIP < List.length l -> RIGHT_HIP < List.length l ->
  snd (rememberInitialOffset l p) = Normal tt.
Proof.
  intros H1 H2. unfold rememberInitialOffset, bind, lift, modify, ret, entry.
  destruct (firstResult p); [|reflexivity].
  apply nth_error_Some in H1, H2.
  destruct (nth_error l LEFT_HIP) as [lh|]; [|contradiction].
  destruct (visible lh); [|reflexivity].
  destruct (nth_error l RIGHT_HIP) as [rh|]; [|contradiction].
  now destruct (visible rh).
Qed.

Lemma filterPoseLandmarks_completes dt (l : NormalizedLandmarkList F) p :
  List.length l <= List.length (poseLandmarks p) ->
  snd (filterPoseLandmarks dt l p) = Normal tt.
Proof.
  intros H. unfold filterPoseLandmarks. rewrite preProcessLandmarks_eq.
  rewrite noiseFiltering_outcome, length_map.
  destruct (Nat.ltb_spec (List.length (poseLandmarks p)) (List.length l)); [lia|reflexivity].
Qed.

Lemma preProcessFace_completes dt (l : NormalizedLandmarkList F) p :
  List.length l <= List.length (faceLandmarks p) ->
  snd (preProcessFace dt l p) = Normal tt.
Proof.
  intros H. unfold preProcessFace. rewrite preProcessLandmarks_eq.
  rewrite noiseFiltering_outcome, length_map.
  destruct (Nat.ltb_spec (List.length (faceLandmarks p)) (List.length l)); [lia|reflexivity].
Qed.

Lemma preProcessPose_completes dt (l : NormalizedLandmarkList F) p :
  LEFT_HIP < List.length l -> RIGHT_HIP < List.length l ->
  List.length l <= List.length (poseLandmarks p) ->
  snd (preProcessPose dt l p) = Normal tt.
Proof.
  intros H1 H2 H3. rewrite preProcessPose_eq.
  pose proof (@rememberInitialOffset_completes l (checkLength l p) H1 H2) as E.
  assert (E2 : preserves (@poseLandmarks F) (rememberInitialOffset l))
    by (apply rememberInitialOffset_frame; reflexivity).
  specialize (E2 (checkLength l p)).
  destruct (rememberInitialOffset l (checkLength l p)) as [p2 c]. cbn [fst snd] in *.
  subst c. apply filterPoseLandmarks_completes. rewrite E2.
  destruct (checkLength_fields l p) as (-> & _). exact H3.
Qed.

(** The copy loop of [postPoseLandmarks]: it reads one filtered landmark for
    every exported one. *)
Lemma copyPoseLandmarks_ok (cs : NormalizedLandmarkList F) :
  forall fs : FilteredVectorLandmarkList F,
    List.length cs <= List.length fs ->
    copyPoseLandmarks cs fs = (map exportLandmark (firstn (List.length cs) fs), Normal tt).
Proof.
  induction cs as [|c cs IH]; intros fs H; [reflexivity|].
  destruct fs as [|f fs]; [cbn in H; lia|].
  cbn [copyPoseLandmarks List.length firstn map]. rewrite IH by (cbn in H; lia).
  reflexivity.
Qed.

Lemma copyPoseLandmarks_normal (cs : NormalizedLandmarkList F) :
  forall (fs : FilteredVectorLandmarkList F) cs',
    copyPoseLandmarks cs fs = (cs', Normal tt) -> List.length cs <= List.length fs.
Proof.
  induction cs as [|c cs IH]; intros fs cs' H; [cbn; lia|].
  destruct fs as [|f fs]; [discriminate|].
  cbn [copyPoseLandmarks] in H.
  destruct (copyPoseLandmarks cs fs) as [vs' k] eqn:E.
  apply pair_eq_inv in H as [_ ->]. apply IH in E. cbn. lia.
Qed.

Lemma postPoseLandmarks_completes p :
  List.length (cloneablePoseLandmarks p) <= List.length (poseLandmarks p) ->
  snd (postPoseLandmarks p) = Normal tt.
Proof.
  intros H. unfold postPoseLandmarks. now rewrite copyPoseLandmarks_ok.
Qed.

Lemma preProcessPoseIfGiven_given dt p :
  givenFace (fst (preProcessPoseIfGiven dt p)) = givenFace p /\
  givenPose (fst (preProcessPoseIfGiven dt p)) = givenPose p.
Proof.
  split; apply preProcessPoseIfGiven_frame; untouched.
Qed.

Lemma preProcessFaceIfGiven_given dt p :
  givenFace (fst (preProcessFaceIfGiven dt p)) =
    option_map (map (transform Zero)) (givenFace p) /\
  givenPose (fst (preProcessFaceIfGiven dt p)) = givenPose p.
Proof.
  split; [|apply preProcessFaceIfGiven_frame; untouched].
  unfold preProcessFaceIfGiven, givenFace.
  destruct (cloneableInputResults p) as [r|] eqn:Er; [|cbn; now rewrite Er].
  destruct (r_faceLandmarks r) as [l|] eqn:El; cbn [fst]; [|cbn; now rewrite Er, El].
  unfold preProcessFace. rewrite preProcessLandmarks_eq.
  destruct (snd (noiseFiltering _ _ _)); cbn; unfold set_r_faceLandmarks; now rewrite Er.
Qed.

(** The steps of a [process] call that did not raise. *)
Lemma process_steps p r dt p' :
  process (Some r) dt p = (p', Normal tt) ->
  exists q1 q2 q3,
    preProcessPoseIfGiven dt (set_cloneableInputResults p (Some r)) = (q1, Normal tt) /\
    preProcessFaceIfGiven dt q1 = (q2, Normal tt) /\
    calcFaceNormal q2 = (q3, Normal tt) /\
    postPoseLandmarks q3 = (p', Normal tt).
Proof.
  unfold process, preProcessResults. intros H.
  apply bind_normal in H as ([] & q2 & H12 & H).
  apply bind_normal in H12 as ([] & q1 & H1 & H2).
  apply bind_normal in H as ([] & q3 & H3 & H4).
  now exists q1, q2, q3.
Qed.

(** X1.  No exception on well-formed frames: when the constants fit the
    lengths of the two landmark sets, the lists of the object have these
    lengths, and the lists of the results, when given, have them too, a
    [process] call returns normally. *)
Theorem process_completes p results dt :
  constantsOk = true -> shaped p ->
  (forall r, results = Some r -> wellFormedFrame r = true) ->
  snd (process results dt p) = Normal tt.
Proof.
  intros Hc Hs Hw. destruct results as [r|]; [|reflexivity].
  destruct (wellFormedFrame_spec r (Hw r eq_refl)) as [Wp Wf].
  destruct (constantsOk_spec Hc) as ((K1 & K2) & _).
  unfold process, preProcessResults.
  set (p0 := set_cloneableInputResults p (Some r)).
  assert (S0 : shaped p0) by exact Hs.
  assert (G0 : givenFace p0 = r_faceLandmarks r) by reflexivity.
  pose proof (preProcessPoseIfGiven_modes dt p0) as M1.
  pose proof (preProcessPoseIfGiven_given dt p0) as [G1 _].
  assert (C1 : snd (preProcessPoseIfGiven dt p0) = Normal tt).
  { unfold preProcessPoseIfGiven. cbn [p0 cloneableInputResults set_cloneableInputResults].
    destruct (ea r) as [l|] eqn:El; [|reflexivity].
    destruct S0 as (S1 & _). specialize (Wp l eq_refl).
    apply preProcessPose_completes; rewrite ?Wp; try assumption.
    fold p0. rewrite S1. lia. }
  destruct (preProcessPoseIfGiven dt p0) as [q1 c1] eqn:E1. cbn [fst snd] in *. subst c1.
  pose proof (modes_shaped M1 S0) as S1.
  pose proof (preProcessFaceIfGiven_modes dt q1) as M2.
  assert (C2 : snd (preProcessFaceIfGiven dt q1) = Normal tt).
  { unfold preProcessFaceIfGiven. rewrite G0 in G1. unfold givenFace in G1.
    destruct (cloneableInputResults q1) as [r1|]; [|reflexivity].
    destruct (r_faceLandmarks r1) as [l|] eqn:El; [|reflexivity].
    destruct S1 as (_ & S2 & _). symmetry in G1. specialize (Wf l G1).
    apply preProcessFace_completes. rewrite Wf, S2. lia. }
  destruct (preProcessFaceIfGiven dt q1) as [q2 c2] eqn:E2. cbn [fst snd] in *. subst c2.
  pose proof (modes_shaped M2 S1) as S2.
  assert (E12 : bind (preProcessPoseIfGiven dt) (fun _ => preProcessFaceIfGiven dt) p0 =
                (q2, Normal tt)) by (unfold bind; now rewrite E1).
  apply seq_completes; rewrite E12; [reflexivity|]. cbn [fst].
  pose proof (calcFaceNormal_modes q2) as M3.
  pose proof (modes_shaped M3 S2) as S3.
  apply seq_completes.
  - destruct S2 as (A & B & _). now apply calcFaceNormal_completes.
  - destruct S3 as (A & _ & B). apply postPoseLandmarks_completes. rewrite A, B. lia.
Qed.

(** X4.  The exported pose list is a snapshot of the filtered pose set: after
    a [process] call that returned normally on an object whose two pose lists
    are as long as each other, entry [i] of [cloneablePoseLandmarks] holds
    the position and the confidence of [poseLandmarks[i]], for every [i]. *)
Theorem process_exports_pose_snapshot p r dt p' :
  List.length (cloneablePoseLandmarks p) = List.length (poseLandmarks p) ->
  process (Some r) dt p = (p', Normal tt) ->
  cloneablePoseLandmarks p' = map exportLandmark (poseLandmarks p').
Proof.
  intros Hl H.
  pose proof (process_modes p (Some r) dt) as Mp. rewrite H in Mp. cbn [fst] in Mp.
  destruct (modes_lengths Mp) as (L1 & _ & L3).
  apply process_steps in H as (q1 & q2 & q3 & _ & _ & _ & H).
  unfold postPoseLandmarks in H.
  destruct (copyPoseLandmarks (cloneablePoseLandmarks q3) (poseLandmarks q3)) as [cs c] eqn:E.
  apply pair_eq_inv in H as [<- ->]. cbn in L1, L3 |- *.
  pose proof (copyPoseLandmarks_length (cloneablePoseLandmarks q3) (poseLandmarks q3)) as Lc.
  pose proof (copyPoseLandmarks_normal _ _ E) as Hle.
  rewrite E in Lc. cbn [fst] in Lc.
  rewrite copyPoseLandmarks_ok in E by exact Hle.
  apply pair_eq_inv in E as [<- _].
  rewrite firstn_all2; [reflexivity|]. lia.
Qed.

(** X5.  One face normal per frame: after a [process] call that returned
    normally on results with a face list or a pose list, [faceNormals] holds
    exactly one vector, whatever it held before. *)
Theorem process_one_face_normal p r dt p' :
  r_faceLandmarks r <> None \/ r_poseLandmarks r <> None ->
  process (Some r) dt p = (p', Normal tt) ->
  exists n, _faceNormals p' = [n].
Proof.
  intros Hg H.
  apply process_steps in H as (q1 & q2 & q3 & H1 & H2 & H3 & H4).
  pose proof (preProcessPoseIfGiven_given dt (set_cloneableInputResults p (Some r)))
    as [G1 G1']. rewrite H1 in G1, G1'. cbn [fst] in G1, G1'.
  pose proof (preProcessFaceIfGiven_given dt q1) as [G2 G2'].
  rewrite H2 in G2, G2'. cbn [fst] in G2, G2'.
  rewrite G1 in G2. rewrite G1' in G2'.
  change (givenFace (set_cloneableInputResults p (Some r))) with (r_faceLandmarks r) in G2.
  change (givenPose (set_cloneableInputResults p (Some r))) with (r_poseLandmarks r) in G2'.
  destruct (calcFaceNormal_one_normal q2 H3) as (n & En).
  { destruct Hg as [Hg|Hg]; [left|right].
    - rewrite G2. now destruct (r_faceLandmarks r).
    - now rewrite G2'. }
  exists n. rewrite <- En.
  assert (E : preserves (@_faceNormals F) postPoseLandmarks)
    by (apply postPoseLandmarks_frame; reflexivity).
  specialize (E q3). now rewrite H4 in E.
Qed.

(** X6.  The face-mesh export: after a [process] call that returned normally
    on results with a face list, the exported index arrays are those of the
    seven connection tables, in the order of the tables, and the exported
    point lists are, array by array and position by position, the landmarks
    of the filtered face set at these indices (with the first coordinate
    written a second time in place of the third); nothing is left of the
    export of the frame before. *)
Theorem process_exports_face_mesh p r dt p' l :
  r_faceLandmarks r = Some l ->
  process (Some r) dt p = (p', Normal tt) ->
  _faceMeshLandmarkIndexList p' = meshIndexLists /\
  Forall2 (fun idxArr arr => meshPoints (faceLandmarks p') idxArr = Normal arr)
          meshIndexLists (_faceMeshLandmarkList p').
Proof.
  intros Hg H.
  apply process_steps in H as (q1 & q2 & q3 & H1 & H2 & H3 & H4).
  pose proof (preProcessPoseIfGiven_given dt (set_cloneableInputResults p (Some r)))
    as [G1 _]. rewrite H1 in G1. cbn [fst] in G1.
  pose proof (preProcessFaceIfGiven_given dt q1) as [G2 _].
  rewrite H2, G1 in G2. cbn [fst] in G2.
  change (givenFace (set_cloneableInputResults p (Some r))) with (r_faceLandmarks r) in G2.
  rewrite Hg in G2. cbn [option_map] in G2.
  unfold calcFaceNormal in H3. apply bind_normal in H3 as (k & q & Hk & H3).
  destruct (keyPoints_dense q2 G2 Hk) as (arrs & Hf & -> & ->).
  apply calculateNormals_normal in H3 as (n & ->).
  unfold postPoseLandmarks in H4.
  destruct (copyPoseLandmarks _ _) as [cs c]. apply pair_eq_inv in H4 as [<- _].
  cbn. split; [reflexivity|exact Hf].
Qed.
End ProcessCompletes.

Lemma completed_eq (A B : Type) (v : A * B) (b : B) : snd v = b -> v = (fst v, b).
Proof. destruct v. cbn. now intros ->. Qed.

Lemma process_completes_witness :
  @constantsOk mediapipe = true /\ shaped startPoses /\
  snd (process (Some fullFrame) dt60 startPoses) = Normal tt.
Proof.
  assert (Hc : @constantsOk mediapipe = true) by (vm_compute; reflexivity).
  assert (Hs : shaped startPoses) by (repeat split; vm_compute; reflexivity).
  split; [exact Hc|]. split; [exact Hs|].
  apply (@process_completes float _ _ mediapipe startPoses (Some fullFrame) dt60 Hc Hs).
  intros r E. apply Some_eq_inv in E. subst r. vm_compute. reflexivity.
Defined.

Lemma process_exports_pose_snapshot_witness :
  cloneablePoseLandmarks (fst (process (Some standingFrame) dt60 startPoses)) =
  map exportLandmark (poseLandmarks (fst (process (Some standingFrame) dt60 startPoses))).
Proof.
  apply (@process_exports_pose_snapshot float _ _ mediapipe startPoses standingFrame dt60
           (fst (process (Some standingFrame) dt60 startPoses))).
  - vm_compute. reflexivity.
  - apply completed_eq. vm_compute. reflexivity.
Defined.

Lemma process_one_face_normal_witness :
  exists n, _faceNormals (fst (process (Some fullFrame) dt60 startPoses)) = [n].
Proof.
  apply (@process_one_face_normal float _ _ mediapipe startPoses fullFrame dt60
           (fst (process (Some fullFrame) dt60 startPoses))).
  - left. vm_compute. discriminate.
  - apply completed_eq. vm_compute. reflexivity.
Defined.

Lemma process_exports_face_mesh_witness :
  _faceMeshLandmarkIndexList (fst (process (Some faceFrame) dt60 startPoses)) =
    @meshIndexLists mediapipe /\
  Forall2 (fun idxArr arr =>
             meshPoints (faceLandmarks (fst (process (Some faceFrame) dt60 startPoses)))
                        idxArr = Normal arr)
          (@meshIndexLists mediapipe)
          (_faceMeshLandmarkList (fst (process (Some faceFrame) dt60 startPoses))).
Proof.
  apply (@process_exports_face_mesh float _ _ mediapipe startPoses faceFrame dt60
           (fst (process (Some faceFrame) dt60 startPoses))
           (repeat (landmark 50 50 25 100 None) 478)).
  - reflexivity.
  - apply completed_eq. vm_compute. reflexivity.
Defined.

(* ================================================================= *)
(** ** Frames of low confidence *)

Section LowConfidenceFrames.
Context {F : Type} {NF : Number F} {HF : HelperFilters F} {HOL : Holistic}.
Implicit Type p : Poses F.
Local Open Scope method_scope.

Lemma updatePosition_held (l : FilteredVectorLandmark F) dt v vis :
  accepted vis = false -> held (updatePosition l dt v vis) = held l.
Proof. intros H. now rewrite updatePosition_rejected. Qed.

Lemma noiseFiltering_held dt (rs : NormalizedLandmarkList F) :
  forall fs : FilteredVectorLandmarkList F,
    forallb lowConfidence rs = true ->
    map held (fst (noiseFiltering dt rs fs)) = map held fs.
Proof.
  induction rs as [|r rs IH]; intros fs H; [reflexivity|].
  destruct fs as [|f fs]; [reflexivity|].
  cbn [forallb] in H. apply andb_true_iff in H as [Hr Hrs].
  cbn [noiseFiltering]. specialize (IH fs Hrs).
  destruct (noiseFiltering dt rs fs) as [fs' c]. cbn [fst map] in *.
  rewrite IH, updatePosition_held; [reflexivity|].
  unfold lowConfidence in Hr. now apply negb_true_iff in Hr.
Qed.

Lemma lowConfidence_transform (offset : Vector3 F) (l : NormalizedLandmarkList F) :
  forallb lowConfidence (map (transform offset) l) = forallb lowConfidence l.
Proof. induction l as [|v l IH]; [reflexivity|]. cbn. now rewrite IH. Qed.

(** A landmark the gate rejects is not visible to the hip test either. *)
Lemma lowConfidence_not_visible (v : NormalizedLandmark F) :
  lowConfidence v = true -> visible v = false.
Proof.
  unfold lowConfidence. rewrite negb_true_iff. intros H.
  apply accepted_false_iff in H as (c & E & Ht & Hg).
  unfold visible, orElse. now rewrite E, Ht.
Qed.

Lemma poseHidden_qualifies results : poseHidden results = true -> qualifies results = None.
Proof.
  destruct results as [r|]; [|reflexivity]. cbn.
  destruct (ea r) as [l|]; [|reflexivity]. intros H. unfold qualifying.
  destruct (nth_error l LEFT_HIP) as [lh|] eqn:El; [|reflexivity].
  destruct (nth_error l RIGHT_HIP) as [rh|]; [|reflexivity].
  rewrite forallb_forall in H.
  now rewrite (lowConfidence_not_visible lh (H lh (nth_error_In _ _ El))).
Qed.

Lemma filterPoseLandmarks_held dt (l : NormalizedLandmarkList F) p :
  forallb lowConfidence l = true ->
  map held (poseLandmarks (fst (filterPoseLandmarks dt l p))) = map held (poseLandmarks p).
Proof.
  intros H. unfold filterPoseLandmarks. rewrite preProcessLandmarks_eq.
  pose proof (noiseFiltering_held dt
                (map (transform (mkVector3 (fromZ 0) (y (midHipBase p)) (fromZ 0))) l)
                (poseLandmarks p)) as E.
  rewrite lowConfidence_transform in E. specialize (E H).
  destruct (noiseFiltering dt _ (poseLandmarks p)) as [fs' c]. cbn [fst snd] in *.
  destruct c; unfold set_ea; destruct (cloneableInputResults p); cbn; exact E.
Qed.

Lemma preProcessPose_held dt (l : NormalizedLandmarkList F) p :
  forallb lowConfidence l = true ->
  map held (poseLandmarks (fst (preProcessPose dt l p))) = map held (poseLandmarks p).
Proof.
  intros H. rewrite preProcessPose_eq.
  assert (E : preserves (@poseLandmarks F) (rememberInitialOffset l))
    by (apply rememberInitialOffset_frame; reflexivity).
  specialize (E (checkLength l p)).
  destruct (checkLength_fields l p) as (E0 & _). rewrite E0 in E.
  destruct (rememberInitialOffset l (checkLength l p)) as [p2 [[]|]]; cbn [fst] in *.
  - rewrite filterPoseLandmarks_held by exact H. now rewrite E.
  - now rewrite E.
Qed.

Lemma process_held p results dt :
  poseHidden results = true ->
  map held (poseLandmarks (fst (process results dt p))) = map held (poseLandmarks p).
Proof.
  intros H. destruct results as [r|]; [|reflexivity].
  pose proof (f_equal (fun t => snd (fst (fst (fst (fst t))))) (process_poseFields p r dt)) as E.
  unfold poseFields in E. cbn [fst snd] in E. rewrite E.
  unfold preProcessPoseIfGiven. cbn [cloneableInputResults set_cloneableInputResults].
  cbn [poseHidden] in H.
  destruct (ea r) as [l|]; [|reflexivity].
  now rewrite preProcessPose_held.
Qed.

(** X9.  Frames of low confidence freeze the pose set: after any number of
    consecutive [process] calls whose results have no pose list or a pose
    list of which every confidence is rejected by the gate (a number other
    than 0 and NaN, not above 0.6), every filtered pose landmark has the
    position, the confidence and the state of both filters it had before,
    only its time counter may have moved, and no calibration was taken from
    these frames. *)
Theorem session_low_confidence_freezes p (frames : list (option (Results F) * F)) :
  Forall (fun fr => poseHidden (fst fr) = true) frames ->
  map held (poseLandmarks (session p frames)) = map held (poseLandmarks p) /\
  midHipBase (session p frames) = midHipBase p /\
  firstResult (session p frames) = firstResult p.
Proof.
  intros H. split.
  - revert p. induction H as [|[r dt] frames Hr _ IH]; intros p; [reflexivity|].
    cbn [session]. rewrite IH. now apply process_held.
  - apply session_not_qualifying.
    induction H as [|[r dt] frames Hr _ IH]; constructor; [|exact IH].
    now apply poseHidden_qualifies.
Qed.
End LowConfidenceFrames.

Lemma session_low_confidence_freezes_witness :
  map held (poseLandmarks
              (session calibratedPoses
                 [(Some hiddenFrame, dt60); (None, dt60); (Some hiddenFrame, dt60)]))
  = map held (poseLandmarks calibratedPoses).
Proof.
  apply (@session_low_confidence_freezes float _ _ mediapipe calibratedPoses
           [(Some hiddenFrame, dt60); (None, dt60); (Some hiddenFrame, dt60)]).
  repeat constructor.
Defined.

(* ================================================================= *)
(** ** The face set takes precedence *)

Section FacePrecedence.
Context {F : Type} {NF : Number F} {HF : HelperFilters F} {HOL : Holistic}.
Implicit Type p : Poses F.
Local Open Scope method_scope.

Lemma meshArrays_unique (fl : FilteredVectorLandmarkList F) (idxs : list (list nat)) :
  forall arrs arrs',
    Forall2 (fun idxArr arr => meshPoints fl idxArr = Normal arr) idxs arrs ->
    Forall2 (fun idxArr arr => meshPoints fl idxArr = Normal arr) idxs arrs' ->
    arrs = arrs'.
Proof.
  induction idxs as [|i idxs IH]; intros arrs arrs' H H'.
  - inversion H. now inversion H'.
  - inversion H as [|? a ? t E Ht]; subst. inversion H' as [|? a' ? t' E' Ht']; subst.
    rewrite E in E'. apply (f_equal (fun c => match c with Normal v => v | TypeError => a end))
      in E'. subst a'. f_equal. now apply IH.
Qed.

Lemma calculateNormals_sum a b c d p q :
  calculateNormals (a, b, c, d) p = (q, Normal tt) ->
  exists s,
    sumNormals (faceVertices a b c d) Zero = Normal s /\
    q = set_faceNormals p [vectorToNormalizedLandmark (copyFrom One (normalize s))].
Proof.
  unfold calculateNormals, bind, modify, lift.
  destruct (sumNormals _ _) as [s|]; [|discriminate].
  intros H. apply pair_eq_inv in H as [<- _]. now exists s.
Qed.

(** What a completed face-normal computation leaves when the results carry
    a face list: everything is a function of the filtered face set. *)
Lemma calcFaceNormal_dense p q l :
  givenFace p = Some l -> calcFaceNormal p = (q, Normal tt) ->
  exists arrs s,
    Forall2 (fun idxArr arr => meshPoints (faceLandmarks p) idxArr = Normal arr)
            meshIndexLists arrs /\
    sumNormals (faceVertices (meshKey (faceLandmarks p) 2 8) (meshKey (faceLandmarks p) 3 8)
                             (meshKey (faceLandmarks p) 6 10) (meshKey (faceLandmarks p) 6 0))
               Zero = Normal s /\
    q = set_faceNormals
          (set_faceMeshLandmarkList (set_faceMeshLandmarkIndexList p meshIndexLists) arrs)
          [vectorToNormalizedLandmark (copyFrom One (normalize s))].
Proof.
  intros Hg H. unfold calcFaceNormal in H.
  apply bind_normal in H as (k & p1 & Hk & H).
  destruct (keyPoints_dense p Hg Hk) as (arrs & Hf & -> & ->).
  apply calculateNormals_sum in H as (s & Hs & ->).
  now exists arrs, s.
Qed.

Lemma process_given_face p r dt q1 q2 l :
  r_faceLandmarks r = Some l ->
  preProcessPoseIfGiven dt (set_cloneableInputResults p (Some r)) = (q1, Normal tt) ->
  preProcessFaceIfGiven dt q1 = (q2, Normal tt) ->
  givenFace q2 = Some (map (transform Zero) l).
Proof.
  intros Hl H1 H2.
  pose proof (preProcessPoseIfGiven_given dt (set_cloneableInputResults p (Some r)))
    as [G1 _]. rewrite H1 in G1. cbn [fst] in G1.
  pose proof (preProcessFaceIfGiven_given dt q1) as [G2 _].
  rewrite H2, G1 in G2. cbn [fst] in G2.
  change (givenFace (set_cloneableInputResults p (Some r))) with (r_faceLandmarks r) in G2.
  now rewrite Hl in G2.
Qed.

Lemma process_face_exports p r dt pe l :
  r_faceLandmarks r = Some l ->
  process (Some r) dt p = (pe, Normal tt) ->
  exists arrs s,
    Forall2 (fun idxArr arr => meshPoints (faceLandmarks pe) idxArr = Normal arr)
            meshIndexLists arrs /\
    sumNormals (faceVertices (meshKey (faceLandmarks pe) 2 8)
                             (meshKey (faceLandmarks pe) 3 8)
                             (meshKey (faceLandmarks pe) 6 10)
                             (meshKey (faceLandmarks pe) 6 0))
               Zero = Normal s /\
    _faceMeshLandmarkIndexList pe = meshIndexLists /\
    _faceMeshLandmarkList pe = arrs /\
    _faceNormals pe = [vectorToNormalizedLandmark (copyFrom One (normalize s))].
Proof.
  intros Hl H.
  apply process_steps in H as (q1 & q2 & q3 & H1 & H2 & H3 & H4).
  pose proof (process_given_face p r dt Hl H1 H2) as G.
  destruct (calcFaceNormal_dense q2 G H3) as (arrs & s & Hf & Hs & ->).
  unfold postPoseLandmarks in H4.
  destruct (copyPoseLandmarks _ _) as [cs c]. apply pair_eq_inv in H4 as [<- _].
  exists arrs, s. cbn. now repeat split.
Qed.

(** X10.  The face set takes precedence: when the results carry a face
    list, what a [process] call that returns normally exports for the face
    (the normal, the index arrays and the point lists of the sub-regions) is
    a function of the face list and of the filtered face set alone; the pose
    list of the results, the image landmarks and the rest of the object play
    no part in it. *)
Theorem process_face_normal_ignores_pose (p q pe qe : Poses F) (r s : Results F)
    (dt : F) (l : NormalizedLandmarkList F) :
  r_faceLandmarks r = Some l -> r_faceLandmarks s = Some l ->
  faceLandmarks p = faceLandmarks q ->
  process (Some r) dt p = (pe, Normal tt) ->
  process (Some s) dt q = (qe, Normal tt) ->
  faceLandmarks pe = faceLandmarks qe /\
  _faceNormals pe = _faceNormals qe /\
  _faceMeshLandmarkIndexList pe = _faceMeshLandmarkIndexList qe /\
  _faceMeshLandmarkList pe = _faceMeshLandmarkList qe.
Proof.
  intros Hr Hs Hf Hp Hq.
  destruct (@process_face_transform _ _ _ _ p pe r dt l Hp Hr) as [_ Ep].
  destruct (@process_face_transform _ _ _ _ q qe s dt l Hq Hs) as [_ Eq].
  assert (E : faceLandmarks pe = faceLandmarks qe) by (now rewrite Ep, Eq, Hf).
  destruct (process_face_exports p r dt Hr Hp) as (a1 & s1 & F1 & S1 & I1 & M1 & N1).
  destruct (process_face_exports q s dt Hs Hq) as (a2 & s2 & F2 & S2 & I2 & M2 & N2).
  rewrite E in F1, S1.
  pose proof (@meshArrays_unique _ _ _ _ F1 F2) as Ea.
  rewrite S1 in S2. apply (f_equal (fun c => match c with Normal v => v | TypeError => s1 end))
    in S2.
  split; [exact E|]. rewrite N1, N2, I1, I2, M1, M2, Ea, S2. now repeat split.
Qed.
End FacePrecedence.

Lemma process_face_normal_ignores_pose_witness :
  _faceNormals (fst (process (Some fullFrame) dt60 startPoses)) =
  _faceNormals (fst (process (Some faceFrame) dt60 startPoses)).
Proof.
  apply (@process_face_normal_ignores_pose float _ _ mediapipe startPoses startPoses
           (fst (process (Some fullFrame) dt60 startPoses))
           (fst (process (Some faceFrame) dt60 startPoses))
           fullFrame faceFrame dt60 (repeat (landmark 50 50 25 100 None) 478)).
  - reflexivity.
  - reflexivity.
  - reflexivity.
  - apply completed_eq. vm_compute. reflexivity.
  - apply completed_eq. vm_compute. reflexivity.
Defined.

(* ================================================================= *)
(** ** The results of the frame before *)

Section StoredResults.
Context {F : Type} {NF : Number F} {HF : HelperFilters F} {HOL : Holistic}.
Implicit Type p : Poses F.

Lemma process_overwrites_results p results dt v :
  process results dt (set_cloneableInputResults p v) = process results dt p.
Proof. reflexivity. Qed.

(** X11.  The results stored by the frame before are never read: a
    [process] call starts by overwriting them, so the call does the same
    whatever they were, and a frame without results ([null]) is forgotten by
    the next call, in a session of any frames before and after. *)
Theorem session_forgets_null_frame p (before after : list (option (Results F) * F))
    (dt : F) (fr : option (Results F) * F) (v : option (Results F)) :
  process (fst fr) (snd fr) (set_cloneableInputResults p v) = process (fst fr) (snd fr) p /\
  session p (before ++ (None, dt) :: fr :: after) = session p (before ++ fr :: after).
Proof.
  split; [reflexivity|].
  rewrite !session_app. destruct fr as [r dt']. reflexivity.
Qed.
End StoredResults.

(* ================================================================= *)
(** ** The time counters of the pose set *)

Section TimeCounters.
Context {F : Type} {NF : Number F} {HF : HelperFilters F} {HOL : Holistic}.
Implicit Type p : Poses F.
Local Open Scope method_scope.

Lemma noiseFiltering_t dt (rs : NormalizedLandmarkList F) :
  forall fs : FilteredVectorLandmarkList F,
    List.length rs = List.length fs ->
    map (@_t F) (fst (noiseFiltering dt rs fs)) = map (fun l => ticked l dt) fs.
Proof.
  induction rs as [|r rs IH]; intros fs H.
  - destruct fs; [reflexivity|discriminate].
  - destruct fs as [|f fs]; [discriminate|].
    cbn [noiseFiltering]. specialize (IH fs ltac:(cbn in H; lia)).
    destruct (noiseFiltering dt rs fs) as [fs' c]. cbn [fst map] in *.
    now rewrite IH, updatePosition_t.
Qed.

Lemma ticked_universal (fs : FilteredVectorLandmarkList F) dt (c : F) :
  Forall (fun l => _tIncrementMode l = Universal) fs ->
  Forall (fun l => _t l = c) fs ->
  Forall (fun t => t = nadd c (fromZ 1)) (map (fun l => ticked l dt) fs).
Proof.
  intros Hu Ht. induction fs as [|f fs IH]; [constructor|].
  inversion Hu; subst. inversion Ht; subst. cbn [map]. constructor; [|now apply IH].
  unfold ticked. now match goal with H : _tIncrementMode f = _ |- _ => rewrite H end.
Qed.

Lemma Forall_map_t (fs : FilteredVectorLandmarkList F) (c : F) :
  Forall (fun t => t = c) (map (@_t F) fs) <-> Forall (fun l => _t l = c) fs.
Proof. now rewrite Forall_map. Qed.

(** One frame: the counters of the pose set go from [c] to [c + 1] when the
    results carry a pose list, and stay at [c] when they do not. *)
Lemma process_ticks p results dt (c : F) :
  constantsOk = true -> shaped p -> universalPoses p ->
  (forall r, results = Some r -> wellFormedFrame r = true) ->
  Forall (fun l => _t l = c) (poseLandmarks p) ->
  Forall (fun l => _t l = tick (poseFrames [(results, dt)]) c)
         (poseLandmarks (fst (process results dt p))).
Proof.
  intros Hc (S1 & _) (U1 & _) Hw Ht.
  destruct results as [r|]; [|exact Ht]. cbn [poseFrames].
  destruct (wellFormedFrame_spec r (Hw r eq_refl)) as [Wp _].
  destruct (constantsOk_spec Hc) as ((K1 & K2) & _).
  destruct (ea r) as [l|] eqn:El.
  - specialize (Wp l eq_refl).
    assert (Hn : snd (rememberInitialOffset l p) = Normal tt)
      by (apply rememberInitialOffset_completes; now rewrite Wp).
    destruct (@process_pose_transform _ _ _ _ p r dt l El Hn) as (_ & H2 & _).
    rewrite H2. apply Forall_map_t. rewrite noiseFiltering_t.
    + now apply ticked_universal.
    + rewrite length_map. now rewrite Wp, S1.
  - pose proof (f_equal (fun t => snd (fst (fst (fst (fst t)))))
                        (process_poseFields p r dt)) as E.
    unfold poseFields in E. cbn [fst snd] in E. rewrite E.
    unfold preProcessPoseIfGiven. cbn [cloneableInputResults set_cloneableInputResults].
    rewrite El. exact Ht.
Qed.

Lemma session_ticks (frames : list (option (Results F) * F)) :
  constantsOk = true ->
  Forall (fun fr => forall r, fst fr = Some r -> wellFormedFrame r = true) frames ->
  forall p (c : F),
    shaped p -> universalPoses p ->
    Forall (fun l => _t l = c) (poseLandmarks p) ->
    Forall (fun l => _t l = tick (poseFrames frames) c) (poseLandmarks (session p frames)).
Proof.
  intros Hc Hw. induction Hw as [|[results dt] frames Hr _ IH]; intros p c Hs Hu Ht.
  - exact Ht.
  - cbn [session]. cbn [fst] in Hr.
    pose proof (process_ticks dt Hc Hs Hu Hr Ht) as H1.
    pose proof (process_modes p results dt) as Em.
    specialize (IH (fst (process results dt p)) _
                   (modes_shaped Em Hs) (modes_universal Em Hu) H1).
    destruct results as [r|]; [destruct (ea r) eqn:El|];
      cbn [poseFrames tick] in IH |- *; rewrite ?El in IH |- *; exact IH.
Qed.

(** X15.  The time counters of the pose set count the frames: in a session
    on [new Poses()] whose pose and face lists have the lengths of the two
    sets, every filtered pose landmark has the same time counter, 0
    incremented by 1 once for every frame whose results carried a pose list,
    whatever the confidences and the times between the frames were. *)
Theorem session_pose_time_counters (frames : list (option (Results F) * F)) :
  constantsOk = true ->
  Forall (fun fr => forall r, fst fr = Some r -> wellFormedFrame r = true) frames ->
  Forall (fun l => _t l = tick (poseFrames frames) (fromZ 0))
         (poseLandmarks (session new_Poses frames)).
Proof.
  intros Hc Hw.
  apply (session_ticks Hc Hw); [apply new_Poses_shaped|apply new_Poses_universal|].
  unfold new_Poses, initArray. cbn [poseLandmarks].
  apply Forall_forall. intros l Hl. apply repeat_spec in Hl. now subst.
Qed.
End TimeCounters.

Lemma session_pose_time_counters_witness :
  Forall (fun l => _t l = tick 2 (fromZ 0))
         (poseLandmarks
            (session startPoses
               [(Some standingFrame, dt60); (None, dt60); (Some faceFrame, dt60);
                (Some hiddenFrame, ratio 1 30)])).
Proof.
  apply (@session_pose_time_counters float _ _ mediapipe
           [(Some standingFrame, dt60); (None, dt60); (Some faceFrame, dt60);
            (Some hiddenFrame, ratio 1 30)]).
  - vm_compute. reflexivity.
  - repeat constructor; cbn [fst]; intros r E; try discriminate;
      apply Some_eq_inv in E; subst r; vm_compute; reflexivity.
Defined.

(* ================================================================= *)
(** ** Deleting landmarks before drawing *)

Section RemoveElements.
Variable A : Type.

Lemma setNth_length {B : Type} (l : list B) (i : nat) (v : B) :
  List.length (setNth i v l) = List.length l.
Proof.
  revert i. induction l as [|h t IH]; intros [|i]; cbn; try reflexivity. now rewrite IH.
Qed.

Lemma setNth_nth_error {B : Type} (l : list B) (i j : nat) (v : B) :
  nth_error (setNth i v l) j =
  if Nat.eqb j i then option_map (fun _ => v) (nth_error l j) else nth_error l j.
Proof.
  revert i j. induction l as [|h t IH]; intros i j.
  - assert (E : setNth i v (@nil B) = []) by now destruct i.
    rewrite E. destruct (Nat.eqb j i); now destruct j.
  - destruct i as [|i], j as [|j]; cbn; try reflexivity. apply IH.
Qed.

(** X16.  [removeElements] keeps the length of the list, leaves a hole at
    every listed index that is inside the list, and leaves every other slot
    as it was; listing an index twice, or an index past the end, changes
    nothing more. *)
Theorem removeElements_holes (landmarks : list (option A)) (elements : list nat) :
  List.length (removeElements landmarks elements) = List.length landmarks /\
  forall i,
    nth_error (removeElements landmarks elements) i =
    if existsb (Nat.eqb i) elements
    then option_map (fun _ => None) (nth_error landmarks i)
    else nth_error landmarks i.
Proof.
  unfold removeElements. revert landmarks.
  induction elements as [|e es IH]; intros l; [now split|].
  cbn [fold_left existsb]. destruct (IH (setNth e None l)) as [H1 H2]. split.
  - now rewrite H1, setNth_length.
  - intros i. rewrite H2, setNth_nth_error.
    destruct (Nat.eqb i e), (existsb (Nat.eqb i) es), (nth_error l i); reflexivity.
Qed.
End RemoveElements.

(* ================================================================= *)
(** ** Landmark lists of any length *)

Section AnyLength.
Context {F : Type} {NF : Number F} {HF : HelperFilters F} {HOL : Holistic}.
Implicit Type p : Poses F.
Local Open Scope js_scope.
Local Open Scope method_scope.

(** The hip test raises before anything is written. *)
Lemma rememberInitialOffset_raises l p :
  rememberInitialOffset l p =
  if hipTestRaises p l then (p, TypeError)
  else (fst (rememberInitialOffset l p), Normal tt).
Proof.
  unfold rememberInitialOffset, hipTestRaises, bind, lift, modify, ret, entry.
  destruct (firstResult p); [|reflexivity]. cbn [andb].
  destruct (nth_error l LEFT_HIP) as [lh|]; [|reflexivity].
  destruct (visible lh); [|reflexivity]. cbn [andb].
  destruct (nth_error l RIGHT_HIP) as [rh|]; [|reflexivity].
  now destruct (visible rh).
Qed.

Lemma hipTestRaises_checkLength l l0 p :
  hipTestRaises (checkLength l0 p) l = hipTestRaises p l.
Proof.
  unfold hipTestRaises. now destruct (checkLength_fields l0 p) as (_ & _ & _ & -> & _).
Qed.

Lemma preProcessPose_raises dt l p :
  hipTestRaises p l = true -> preProcessPose dt l p = (checkLength l p, TypeError).
Proof.
  intros H. rewrite preProcessPose_eq, rememberInitialOffset_raises.
  now rewrite hipTestRaises_checkLength, H.
Qed.

Lemma hipTestRaises_outcome l p :
  snd (rememberInitialOffset l p) = if hipTestRaises p l then TypeError else Normal tt.
Proof. rewrite rememberInitialOffset_raises. now destruct (hipTestRaises p l). Qed.

(** How the pose block ends. *)
Lemma preProcessPoseIfGiven_outcome p r dt :
  snd (preProcessPoseIfGiven dt (set_cloneableInputResults p (Some r))) =
  if poseBlockCompletes p r then Normal tt else TypeError.
Proof.
  unfold preProcessPoseIfGiven, poseBlockCompletes.
  cbn [cloneableInputResults set_cloneableInputResults].
  destruct (ea r) as [l|]; [|reflexivity].
  set (p0 := set_cloneableInputResults p (Some r)).
  change (hipTestRaises p l) with (hipTestRaises p0 l).
  change (poseLandmarks p) with (poseLandmarks p0).
  destruct (hipTestRaises p0 l) eqn:Eh.
  - now rewrite (preProcessPose_raises dt l p0 Eh).
  - assert (Hn : snd (rememberInitialOffset l (checkLength l p0)) = Normal tt)
      by (now rewrite hipTestRaises_outcome, hipTestRaises_checkLength, Eh).
    destruct (@preProcessPose_transform _ _ _ _ dt l p0 r eq_refl Hn) as (_ & _ & _ & -> & _).
    rewrite noiseFiltering_outcome, length_map. cbn [negb andb].
    destruct (Nat.ltb_spec (List.length (poseLandmarks p0)) (List.length l)) as [H|H].
    + now rewrite (proj2 (Nat.leb_gt _ _) H).
    + now rewrite (proj2 (Nat.leb_le _ _) H).
Qed.

(** A pose block that raises ends the call: the face block is not reached. *)
Lemma process_pose_block_raises p r dt :
  poseBlockCompletes p r = false ->
  process (Some r) dt p = preProcessPoseIfGiven dt (set_cloneableInputResults p (Some r)).
Proof.
  intros H. pose proof (preProcessPoseIfGiven_outcome p r dt) as E. rewrite H in E.
  unfold process, preProcessResults, bind.
  destruct (preProcessPoseIfGiven dt _) as [q c]. cbn [snd] in E. now subst c.
Qed.

Lemma preProcessPose_console dt l p :
  console (fst (preProcessPose dt l p)) = console (checkLength l p).
Proof.
  assert (E : preserves (@console F) (rememberInitialOffset l))
    by (apply rememberInitialOffset_frame; reflexivity).
  rewrite preProcessPose_eq. specialize (E (checkLength l p)).
  destruct (rememberInitialOffset l (checkLength l p)) as [p2 [[]|]]; cbn [fst] in *;
    [|exact E].
  rewrite <- E. unfold filterPoseLandmarks.
  destruct (preProcessLandmarks _ _ _ _) as [[l' fs'] c].
  destruct c; unfold set_ea; now destruct (cloneableInputResults p2).
Qed.

(** What a [process] call prints. *)
Lemma process_console p r dt :
  console (fst (process (Some r) dt p)) = console p ++ poseWarning r.
Proof.
  pose proof (f_equal (fun t => snd (fst (fst t))) (process_poseFields p r dt)) as E.
  unfold poseFields in E. cbn [fst snd] in E. rewrite E.
  unfold preProcessPoseIfGiven, poseWarning.
  cbn [cloneableInputResults set_cloneableInputResults].
  destruct (ea r) as [l|]; [|cbn; now rewrite app_nil_r].
  rewrite preProcessPose_console.
  destruct (checkLength_fields l (set_cloneableInputResults p (Some r)))
    as (_ & _ & _ & _ & ->).
  destruct (Nat.eqb _ _); cbn; [now rewrite app_nil_r|reflexivity].
Qed.

(** The call on a pose list for which the hip test raises. *)
Lemma process_hip_test_raises p r dt l :
  ea r = Some l -> hipTestRaises p l = true ->
  process (Some r) dt p = (checkLength l (set_cloneableInputResults p (Some r)), TypeError).
Proof.
  intros He Hh. rewrite process_pose_block_raises.
  - unfold preProcessPoseIfGiven. cbn [cloneableInputResults set_cloneableInputResults].
    rewrite He. now apply preProcessPose_raises.
  - unfold poseBlockCompletes. now rewrite He, Hh.
Qed.

(** The face block, once the pose block has ended normally. *)
Lemma process_face_list p r dt l :
  r_faceLandmarks r = Some l -> poseBlockCompletes p r = true ->
  let p' := fst (process (Some r) dt p) in
  let l' := map (transform Zero) l in
  givenFace p' = Some l' /\
  faceLandmarks p' = fst (noiseFiltering dt l' (faceLandmarks p)) /\
  (List.length (faceLandmarks p) < List.length l ->
   snd (process (Some r) dt p) = TypeError) /\
  (List.length l <= List.length (faceLandmarks p) -> inputFaceLandmarks p' = l').
Proof.
  intros Hl Hc. cbv zeta.
  set (p0 := set_cloneableInputResults p (Some r)).
  pose proof (preProcessPoseIfGiven_outcome p r dt) as E1. rewrite Hc in E1. fold p0 in E1.
  pose proof (preProcessPoseIfGiven_frame
                (fun q => (givenFace q, faceLandmarks q)) dt) as Ef.
  specialize (Ef ltac:(untouched) ltac:(untouched) ltac:(untouched) ltac:(untouched)
                 ltac:(untouched) ltac:(untouched) p0).
  cbv beta in Ef.
  change (givenFace p0) with (r_faceLandmarks r) in Ef. rewrite Hl in Ef.
  change (faceLandmarks p0) with (faceLandmarks p) in Ef.
  destruct (preProcessPoseIfGiven dt p0) as [q1 c1] eqn:Eq1. cbn [fst snd] in *. subst c1.
  apply pair_eq_inv in Ef as [Eg Efl].
  assert (Er : exists r1, cloneableInputResults q1 = Some r1 /\ r_faceLandmarks r1 = Some l).
  { unfold givenFace in Eg. destruct (cloneableInputResults q1) as [r1|]; [|discriminate].
    now exists r1. }
  destruct Er as (r1 & Er1 & Er2).
  assert (E2 : preProcessFaceIfGiven dt q1 = preProcessFace dt l q1)
    by (unfold preProcessFaceIfGiven; now rewrite Er1, Er2).
  destruct (preProcessFace_transform dt l q1 Er1) as [Ha Hb]. rewrite Efl in Ha.
  pose proof (preProcessFaceIfGiven_given dt q1) as [Hg _]. rewrite Eg in Hg.
  cbn [option_map] in Hg. rewrite E2 in Hg.
  assert (Eo : snd (preProcessFace dt l q1) =
               if Nat.ltb (List.length (faceLandmarks p)) (List.length l)
               then TypeError else Normal tt).
  { unfold preProcessFace. rewrite preProcessLandmarks_eq.
    rewrite noiseFiltering_outcome, length_map, Efl.
    now destruct (Nat.ltb _ _). }
  assert (Ep : process (Some r) dt p =
               (preProcessFace dt l ;; calcFaceNormal ;; postPoseLandmarks) q1).
  { unfold process, preProcessResults. fold p0. unfold bind at 1 2. rewrite Eq1.
    rewrite E2. reflexivity. }
  assert (Hk : forall X (f : Poses F -> X),
             (forall q v, f (set_faceMeshLandmarkIndexList q v) = f q) ->
             (forall q v, f (set_faceMeshLandmarkList q v) = f q) ->
             (forall q v, f (set_faceNormals q v) = f q) ->
             (forall q v, f (set_cloneablePoseLandmarks q v) = f q) ->
             f (fst (process (Some r) dt p)) = f (fst (preProcessFace dt l q1))).
  { intros X f K1 K2 K3 K4. rewrite Ep. apply bind_fst_after. intros _.
    apply preserves_bind; [now apply calcFaceNormal_frame|].
    intros _. now apply postPoseLandmarks_frame. }
  rewrite (Hk _ (@givenFace F) ltac:(untouched) ltac:(untouched) ltac:(untouched)
              ltac:(untouched)).
  rewrite (Hk _ (@faceLandmarks F) ltac:(untouched) ltac:(untouched) ltac:(untouched)
              ltac:(untouched)).
  rewrite (Hk _ (@inputFaceLandmarks F) ltac:(untouched) ltac:(untouched) ltac:(untouched)
              ltac:(untouched)).
  split; [exact Hg|]. split; [exact Ha|]. split.
  - intros Hlt. rewrite Ep. unfold bind at 1.
    rewrite (proj2 (Nat.ltb_lt _ _) Hlt) in Eo.
    destruct (preProcessFace dt l q1) as [q2 c2]. cbn [snd] in Eo. now subst c2.
  - intros Hle. apply Hb. rewrite Eo.
    now rewrite (proj2 (Nat.ltb_ge _ _) Hle).
Qed.

(** The pose block on a list for which the hip test does not raise. *)
Lemma process_pose_list p r dt l :
  ea r = Some l -> hipTestRaises p l = false ->
  let p' := fst (process (Some r) dt p) in
  let l' := map (transform (poseOffset p')) l in
  givenEa p' = Some l' /\
  poseLandmarks p' = fst (noiseFiltering dt l' (poseLandmarks p)) /\
  (List.length (poseLandmarks p) < List.length l ->
   snd (process (Some r) dt p) = TypeError /\ faceLandmarks p' = faceLandmarks p) /\
  (List.length l <= List.length (poseLandmarks p) -> inputPoseLandmarks p' = l').
Proof.
  intros He Hh. cbv zeta.
  assert (Hn : snd (rememberInitialOffset l p) = Normal tt)
    by (now rewrite hipTestRaises_outcome, Hh).
  destruct (@process_pose_transform _ _ _ _ p r dt l He Hn) as (H1 & H2 & _ & _ & H5).
  split; [exact H1|]. split; [exact H2|].
  set (p0 := set_cloneableInputResults p (Some r)).
  assert (Ep : preProcessPoseIfGiven dt p0 = preProcessPose dt l p0).
  { unfold preProcessPoseIfGiven. cbn. now rewrite He. }
  split.
  - intros Hlt. split.
    + apply H5. rewrite noiseFiltering_outcome, length_map.
      now rewrite (proj2 (Nat.ltb_lt _ _) Hlt).
    + rewrite process_pose_block_raises.
      * fold p0. change (faceLandmarks p) with (faceLandmarks p0).
        apply (preProcessPoseIfGiven_frame (@faceLandmarks F)); untouched.
      * unfold poseBlockCompletes. rewrite He, Hh. cbn [negb andb].
        now apply Nat.leb_gt.
  - intros Hle.
    pose proof (process_poseFields p r dt) as E. fold p0 in E. rewrite Ep in E.
    unfold poseFields in E.
    pose proof (f_equal (fun t => snd (fst (fst (fst t)))) E) as Ei.
    pose proof (f_equal (fun t => snd (fst t)) E) as Em.
    cbn [fst snd] in Ei, Em. rewrite Ei.
    assert (Hn0 : snd (rememberInitialOffset l (checkLength l p0)) = Normal tt)
      by (rewrite hipTestRaises_outcome, hipTestRaises_checkLength;
          change (hipTestRaises p0 l) with (hipTestRaises p l); now rewrite Hh).
    destruct (@preProcessPose_transform _ _ _ _ dt l p0 r eq_refl Hn0)
      as (_ & _ & _ & Ho & Hi).
    unfold poseOffset in *. rewrite Em. apply Hi. rewrite Ho.
    rewrite noiseFiltering_outcome, length_map.
    change (poseLandmarks p0) with (poseLandmarks p).
    now rewrite (proj2 (Nat.ltb_ge _ _) Hle).
Qed.

(** No exception when every list fits: the pose block ends normally and the
    face list is not longer than the face set. *)
Lemma process_completes_fitting p r dt :
  constantsOk = true -> shaped p -> poseBlockCompletes p r = true ->
  (forall l, r_faceLandmarks r = Some l -> List.length l <= FACE_LANDMARK_LENGTH) ->
  snd (process (Some r) dt p) = Normal tt.
Proof.
  intros Hc Hs Hp Hf.
  set (p0 := set_cloneableInputResults p (Some r)).
  assert (S0 : shaped p0) by exact Hs.
  pose proof (preProcessPoseIfGiven_outcome p r dt) as C1. rewrite Hp in C1. fold p0 in C1.
  pose proof (preProcessPoseIfGiven_modes dt p0) as M1.
  pose proof (preProcessPoseIfGiven_given dt p0) as [G1 _].
  change (givenFace p0) with (r_faceLandmarks r) in G1.
  destruct (preProcessPoseIfGiven dt p0) as [q1 c1] eqn:E1. cbn [fst snd] in *. subst c1.
  pose proof (modes_shaped M1 S0) as S1.
  pose proof (preProcessFaceIfGiven_modes dt q1) as M2.
  assert (C2 : snd (preProcessFaceIfGiven dt q1) = Normal tt).
  { unfold preProcessFaceIfGiven. unfold givenFace in G1.
    destruct (cloneableInputResults q1) as [r1|]; [|reflexivity].
    destruct (r_faceLandmarks r1) as [l|] eqn:El; [|reflexivity].
    destruct S1 as (_ & S2 & _). symmetry in G1. specialize (Hf l G1).
    apply preProcessFace_completes. rewrite S2. exact Hf. }
  destruct (preProcessFaceIfGiven dt q1) as [q2 c2] eqn:E2. cbn [fst snd] in *. subst c2.
  pose proof (modes_shaped M2 S1) as S2.
  unfold process, preProcessResults. fold p0.
  assert (E12 : bind (preProcessPoseIfGiven dt) (fun _ => preProcessFaceIfGiven dt) p0 =
                (q2, Normal tt)) by (unfold bind; now rewrite E1).
  apply seq_completes; rewrite E12; [reflexivity|]. cbn [fst].
  pose proof (calcFaceNormal_modes q2) as M3.
  pose proof (modes_shaped M3 S2) as S3.
  apply seq_completes.
  - destruct S2 as (A & B & _). now apply calcFaceNormal_completes.
  - destruct S3 as (A & _ & B). apply postPoseLandmarks_completes. rewrite A, B. lia.
Qed.

(** C6.  The coordinate transform of a [process] call, however the call
    ends.  A pose list (the field [ea]) for which the hip test does not raise
    is rewritten in place, every landmark (x, y, z) to
    (x + 0, -y + midHipBase.y, z + 0) with the offset as this call leaves it,
    and the filters of the pose set are fed with the rewritten list, position
    by position; the rewritten list is stored as [inputPoseLandmarks] when it
    is not longer than the pose set.  A face list, once the pose block has
    ended normally, is rewritten to (x + 0, -y + 0, z + 0), the filters of the
    face set are fed with it, and it is stored as [inputFaceLandmarks] when
    it is not longer than the face set. *)
Theorem process_coordinate_transform (p : Poses F) (r : Results F) (dt : F) :
  let p' := fst (process (Some r) dt p) in
  (forall l, ea r = Some l -> hipTestRaises p l = false ->
     let l' := map (fun v => mkLandmark (nl_x v + fromZ 0) (- nl_y v + y (midHipBase p'))
                                        (nl_z v + fromZ 0) (nl_visibility v)) l in
     givenEa p' = Some l' /\
     poseLandmarks p' = fst (noiseFiltering dt l' (poseLandmarks p)) /\
     (List.length l <= List.length (poseLandmarks p) -> inputPoseLandmarks p' = l')) /\
  (forall l, r_faceLandmarks r = Some l -> poseBlockCompletes p r = true ->
     let l' := map (fun v => mkLandmark (nl_x v + fromZ 0) (- nl_y v + fromZ 0)
                                        (nl_z v + fromZ 0) (nl_visibility v)) l in
     givenFace p' = Some l' /\
     faceLandmarks p' = fst (noiseFiltering dt l' (faceLandmarks p)) /\
     (List.length l <= List.length (faceLandmarks p) -> inputFaceLandmarks p' = l')).
Proof.
  cbv zeta. split.
  - intros l He Hh.
    destruct (@process_pose_list p r dt l He Hh) as (H1 & H2 & _ & H4).
    split; [exact H1|]. split; [exact H2|exact H4].
  - intros l Hl Hc.
    destruct (@process_face_list p r dt l Hl Hc) as (H1 & H2 & _ & H4).
    split; [exact H1|]. split; [exact H2|exact H4].
Qed.

(** C9 (as amended).  A landmark list of the wrong length is neither rejected
    nor ignored: it is handled as a list of the right length is, position by
    position, and the length test does nothing but print a warning, for the
    pose list only (a face list is never tested).  For a pose list the hip
    test comes first: when it raises (the object is not calibrated and the
    list lacks the left hip entry, or lacks the right one while the left one
    is seen with a confidence above the threshold) the call ends with a
    TypeError and no list is rewritten and no filter touched; otherwise the
    filters at the positions the list has are updated with the rewritten
    landmarks, the filters past its end stay, and the call ends with a
    TypeError, after these updates and before the face set is touched, when
    the list is longer than the pose set.  A face list, once the pose block
    has ended normally, is handled in the same way, with a TypeError when it
    is longer than the face set.  In every other case the call returns
    normally. *)
Theorem process_wrong_length_pose_list (p : Poses F) (r : Results F) (dt : F) :
  let p' := fst (process (Some r) dt p) in
  console p' = console p ++ poseWarning r /\
  (forall l, ea r = Some l ->
     (hipTestRaises p l = true ->
      snd (process (Some r) dt p) = TypeError /\
      givenEa p' = Some l /\
      poseLandmarks p' = poseLandmarks p /\ faceLandmarks p' = faceLandmarks p) /\
     (hipTestRaises p l = false ->
      (forall i f v,
         nth_error (poseLandmarks p) i = Some f -> nth_error l i = Some v ->
         nth_error (poseLandmarks p') i =
         Some (updatePosition f dt
                 (mkVector3 (nl_x v + fromZ 0) (- nl_y v + y (midHipBase p'))
                            (nl_z v + fromZ 0))
                 (nl_visibility v))) /\
      (forall i, List.length l <= i ->
         nth_error (poseLandmarks p') i = nth_error (poseLandmarks p) i) /\
      (List.length (poseLandmarks p) < List.length l ->
       snd (process (Some r) dt p) = TypeError /\ faceLandmarks p' = faceLandmarks p))) /\
  (forall l, r_faceLandmarks r = Some l -> poseBlockCompletes p r = true ->
     (forall i f v,
        nth_error (faceLandmarks p) i = Some f -> nth_error l i = Some v ->
        nth_error (faceLandmarks p') i =
        Some (updatePosition f dt
                (mkVector3 (nl_x v + fromZ 0) (- nl_y v + fromZ 0) (nl_z v + fromZ 0))
                (nl_visibility v))) /\
     (forall i, List.length l <= i ->
        nth_error (faceLandmarks p') i = nth_error (faceLandmarks p) i) /\
     (List.length (faceLandmarks p) < List.length l ->
      snd (process (Some r) dt p) = TypeError)) /\
  (constantsOk = true -> shaped p -> poseBlockCompletes p r = true ->
   (forall l, r_faceLandmarks r = Some l -> List.length l <= FACE_LANDMARK_LENGTH) ->
   snd (process (Some r) dt p) = Normal tt).
Proof.
  cbv zeta. split; [apply process_console|]. split; [|split].
  - intros l He. split.
    + intros Hh. rewrite (@process_hip_test_raises p r dt l He Hh). cbn [fst snd].
      destruct (checkLength_fields l (set_cloneableInputResults p (Some r)))
        as (E1 & E2 & _).
      split; [reflexivity|]. split; [|split].
      * unfold givenEa. rewrite E2. exact He.
      * exact E1.
      * unfold checkLength. now destruct (Nat.eqb _ _).
    + intros Hh. destruct (@process_pose_list p r dt l He Hh) as (_ & H2 & H3 & _).
      rewrite H2. split; [|split].
      * intros i f v Hf Hv.
        rewrite (noiseFiltering_nth dt _ (poseLandmarks p) i Hf
                   (map_nth_error (transform _) i l Hv)).
        reflexivity.
      * intros i Hi. apply noiseFiltering_beyond. now rewrite length_map.
      * exact H3.
  - intros l Hl Hc. destruct (@process_face_list p r dt l Hl Hc) as (_ & H2 & H3 & _).
    rewrite H2. split; [|split].
    + intros i f v Hf Hv.
      rewrite (noiseFiltering_nth dt _ (faceLandmarks p) i Hf
                 (map_nth_error (transform _) i l Hv)).
      reflexivity.
    + intros i Hi. apply noiseFiltering_beyond. now rewrite length_map.
    + exact H3.
  - apply process_completes_fitting.
Qed.
End AnyLength.

Lemma process_coordinate_transform_witness :
  givenEa (fst (process (Some fullFrame) dt60 startPoses)) =
  Some (map (fun v => mkLandmark (nl_x v + fromZ 0)
                        (- nl_y v + y (midHipBase (fst (process (Some fullFrame) dt60 startPoses))))
                        (nl_z v + fromZ 0) (nl_visibility v))%js
            (repeat (landmark 5 5 0 10 (Some (ratio 9 10))) 33)) /\
  givenFace (fst (process (Some fullFrame) dt60 startPoses)) =
  Some (map (fun v => mkLandmark (nl_x v + fromZ 0) (- nl_y v + fromZ 0)
                                 (nl_z v + fromZ 0) (nl_visibility v))%js
            (repeat (landmark 50 50 25 100 None) 478)).
Proof.
  pose proof (@process_coordinate_transform float _ _ mediapipe startPoses fullFrame dt60)
    as [Hp Hf].
  split.
  - apply (Hp (repeat (landmark 5 5 0 10 (Some (ratio 9 10))) 33) eq_refl).
    vm_compute. reflexivity.
  - apply (Hf (repeat (landmark 50 50 25 100 None) 478) eq_refl).
    vm_compute. reflexivity.
Defined.

Lemma process_wrong_length_pose_list_witness :
  snd (process (Some shortFrame) dt60 startPoses) = TypeError /\
  nth_error (poseLandmarks (fst (process (Some shortFrame) dt60 calibratedPoses))) 1
  = nth_error (poseLandmarks calibratedPoses) 1.
Proof.
  split.
  - pose proof (@process_wrong_length_pose_list float _ _ mediapipe startPoses shortFrame
                  dt60) as (_ & H & _).
    apply (proj1 (H [landmark 1 1 0 1 (Some (ratio 9 10))] eq_refl)).
    vm_compute. reflexivity.
  - pose proof (@process_wrong_length_pose_list float _ _ mediapipe calibratedPoses
                  shortFrame dt60) as (_ & H & _).
    apply (proj2 (H [landmark 1 1 0 1 (Some (ratio 9 10))] eq_refl)).
    + vm_compute. reflexivity.
    + cbn. lia.
Defined.

(* ================================================================= *)
(** ** The exported face normal *)

Section ExportedNormal.
Context {F : Type} {NF : Number F} {HF : HelperFilters F} {HOL : Holistic}.
Implicit Type p : Poses F.
Local Open Scope method_scope.



End ExportedNormal.


(** C2 (a sum other than zero).  With the inner corner of one eye moved by
    2^-600 the four triangle normals sum to a vector other than zero; the
    squares of its coordinates underflow, its computed length is 0,
    [normalize] returns it as it is, and the exported vector has coordinates
    below 1e-100. *)
Lemma faceNormal_tiny_sum :
  let p := fst (process (Some tinyFrame) dt60 startPoses) in
  snd (process (Some tinyFrame) dt60 startPoses) = Normal tt /\
  map (fun n => (PrimFloat.ltb 0 (nl_x n) && PrimFloat.ltb (nl_x n) 0x1p-400 &&
                 PrimFloat.ltb 0 (nl_y n) && PrimFloat.ltb (nl_y n) 0x1p-400 &&
                 PrimFloat.eqb (nl_z n) 0)%bool%float)
      (_faceNormals p) = [true] /\
  map (fun n => length (normalizedLandmarkToVector n)) (_faceNormals p) = [0%float].
Proof. cbv zeta. repeat split; now vm_compute. Qed.

(* ================================================================= *)
(** ** Degenerate triangles on binary64 numbers *)

Section FloatZeros.
Local Open Scope float_scope.


















End FloatZeros.


